(** * Go-reverse-proxy: the proxy core, embedded and verified

    Shallow embedding of [proxy/main.go] (the variant with load-balancing
    strategies and per-backend active-request counters).  The package-level
    variables become one record, [Globals]; every handler is a function from
    [Globals] (and the answers of the outside world: the upstream round trip,
    the TCP dial, the kill and spawn system calls, the strategy file) to the
    new [Globals] and a response.  Pointers into the [backends] slice are
    indices; log lines and system calls are appended to an effect trace. *)

From Stdlib Require Import ZArith Lia List Bool String.
From stdpp Require Import base list pretty.
Import ListNotations.

Local Open Scope string_scope.
Local Open Scope list_scope.
Local Open Scope Z_scope.

(* ------------------------------------------------------------------ *)
(** ** Machine integers *)
(* ------------------------------------------------------------------ *)

Module Int.

Definition MaxInt64 : Z := 2 ^ 63 - 1.
Definition MinInt64 : Z := - 2 ^ 63.
Definition MaxUint64 : Z := 2 ^ 64 - 1.

(** [uint64] arithmetic wraps modulo 2^64. *)
Definition wrap_uint64 (z : Z) : Z := z mod 2 ^ 64.

(** [int64] arithmetic wraps into [-2^63, 2^63). *)
Definition wrap_int64 (z : Z) : Z := (z + 2 ^ 63) mod 2 ^ 64 - 2 ^ 63.

(** [atomic.AddUint64(&x, d)] returns the new value. *)
Definition AddUint64 (x d : Z) : Z := wrap_uint64 (x + d).

(** [atomic.AddInt64(&x, d)] returns the new value. *)
Definition AddInt64 (x d : Z) : Z := wrap_int64 (x + d).

(** The conversion [int(u)] of a [uint64] on a 64-bit platform keeps the
    bit pattern: values from 2^63 on become negative. *)
Definition int_of_uint64 (u : Z) : Z := wrap_int64 u.

(** Go's [%] on signed integers truncates towards zero. *)
Definition rem (a b : Z) : Z := Z.rem a b.

Definition is_int64 (z : Z) : Prop := MinInt64 <= z <= MaxInt64.
Definition is_uint64 (z : Z) : Prop := 0 <= z <= MaxUint64.

End Int.

(* ------------------------------------------------------------------ *)
(** ** Types *)
(* ------------------------------------------------------------------ *)

(** [url.URL], as far as the proxy reads it. *)
Record Url := mkUrl {
  Scheme : string;
  Host : string;      (* "localhost:<port>" *)
  Port : string
}.

(** [os.Process] and [exec.Cmd]. *)
Record OsProcess := mkProcess { Pid : nat }.
Record ExecCmd := mkCmd { Process : option OsProcess }.

Definition Time := Z.

Record Backend := mkBackend {
  Name : string;
  URL : Url;
  Healthy : bool;
  LastSeen : Time;
  Cmd : option ExecCmd;
  ActiveRequests : Z
}.

Definition LoadBalancingStrategy := string.
Definition StrategyRoundRobin : LoadBalancingStrategy := "round_robin".
Definition StrategyLeastConnections : LoadBalancingStrategy := "least_connections".

(** Every [log.Printf]/[log.Println] of the program, with its arguments. *)
Inductive LogLine :=
| LogRequestStart (reqID : Z) (name : string) (active : Z)
| LogRequestFinish (reqID : Z) (name : string) (active : Z)
| LogSelectedLeastConn (name : string) (val : Z)
| LogSelectedRR (name : string) (val : Z)
| LogProxyDisabled
| LogProxyEnabled
| LogStrategyChanged (s : LoadBalancingStrategy)
| LogRestarting (name : string)
| LogStarting (name : string)
| LogManuallyStopped (name : string)
| LogBuilding
| LogBuildError
| LogCouldntStart (name port : string)
| LogAutoStarted (name port : string)
| LogSaveFailed
| LogLoadFailed
| LogDecodeFailed
| LogLoadedStrategy (s : LoadBalancingStrategy)
| LogNotAvailable (name addr : string)
| LogAvailableAgain (name addr : string)
| LogShutdown
| LogBackendStopped (name : string)
| LogAllShutdown
| LogConfigIssue
| LogFatal (err : string).

(** What the program does to the outside world, in order. *)
Inductive Effect :=
| ELog (l : LogLine)
| EKill (p : OsProcess)
| EBuild
| ESpawn (port : string)
| EWriteStrategyFile (s : LoadBalancingStrategy).

(** The package-level variables. *)
Record Globals := mkGlobals {
  backends : list Backend;
  counter : Z;
  proxyActive : bool;
  strategy : LoadBalancingStrategy;
  effects : list Effect
}.

(** Field updates. *)
Definition setHealthy (h : bool) (b : Backend) : Backend :=
  mkBackend (Name b) (URL b) h (LastSeen b) (Cmd b) (ActiveRequests b).
Definition setLastSeen (t : Time) (b : Backend) : Backend :=
  mkBackend (Name b) (URL b) (Healthy b) t (Cmd b) (ActiveRequests b).
Definition setCmd (c : option ExecCmd) (b : Backend) : Backend :=
  mkBackend (Name b) (URL b) (Healthy b) (LastSeen b) c (ActiveRequests b).
Definition addActive (d : Z) (b : Backend) : Backend :=
  mkBackend (Name b) (URL b) (Healthy b) (LastSeen b) (Cmd b)
            (Int.AddInt64 (ActiveRequests b) d).

Definition withBackends (bs : list Backend) (g : Globals) : Globals :=
  mkGlobals bs (counter g) (proxyActive g) (strategy g) (effects g).
Definition withCounter (c : Z) (g : Globals) : Globals :=
  mkGlobals (backends g) c (proxyActive g) (strategy g) (effects g).
Definition withProxyActive (a : bool) (g : Globals) : Globals :=
  mkGlobals (backends g) (counter g) a (strategy g) (effects g).
Definition withStrategy (s : LoadBalancingStrategy) (g : Globals) : Globals :=
  mkGlobals (backends g) (counter g) (proxyActive g) s (effects g).
Definition emit (e : Effect) (g : Globals) : Globals :=
  mkGlobals (backends g) (counter g) (proxyActive g) (strategy g) (effects g ++ [e]).
Definition logf (l : LogLine) (g : Globals) : Globals := emit (ELog l) g.

(** HTTP status codes used by the handlers. *)
Definition StatusOK : Z := 200.
Definition StatusBadRequest : Z := 400.
Definition StatusNotFound : Z := 404.
Definition StatusInternalServerError : Z := 500.
Definition StatusBadGateway : Z := 502.
Definition StatusServiceUnavailable : Z := 503.

Inductive Response :=
| HttpError (msg : string) (code : Z)        (* http.Error(w, msg, code) *)
| Upstream (status : Z) (body : string)      (* the upstream response, copied *)
| Json (kvs : list (string * string)).       (* json.NewEncoder(w).Encode(map) *)

Definition statusOf (r : Response) : Z :=
  match r with
  | HttpError _ code => code
  | Upstream status _ => status
  | Json _ => StatusOK
  end.

(** A handler either answers or panics (the HTTP server recovers the panic
    and drops the connection). *)
Inductive Outcome :=
| Responded (r : Response)
| Panicked.

(** Answer of [http.DefaultTransport.RoundTrip]. *)
Inductive RoundTripResult :=
| RoundTripErr (err : string)
| RoundTripOk (status : Z) (body : string).

(* ------------------------------------------------------------------ *)
(** ** Backend selection: [getNextHealthyBackend] *)
(* ------------------------------------------------------------------ *)

(** A [*Backend] is the index of the backend in [backends]; the scan keeps
    the pointee next to it (the lock is held, nothing changes meanwhile). *)
Abbreviation BackendPtr := (nat * Backend)%type.

(** [for _, b := range backends { if b.Healthy { healthy = append(healthy, b) } }] *)
Fixpoint healthyFrom (i : nat) (bs : list Backend) : list BackendPtr :=
  match bs with
  | [] => []
  | b :: bs' =>
      if Healthy b then (i, b) :: healthyFrom (S i) bs'
      else healthyFrom (S i) bs'
  end.

Definition healthySet (g : Globals) : list BackendPtr := healthyFrom 0 (backends g).

(** One iteration of the least-connections scan over [(best, minActive)]. *)
Definition leastConnStep (acc : option BackendPtr * Z) (b : BackendPtr)
  : option BackendPtr * Z :=
  let '(best, minActive) := acc in
  let active := ActiveRequests (snd b) in
  if (minActive =? -1) || (active <? minActive) then (Some b, active)
  else (best, minActive).

Definition leastConnScan (healthy : list BackendPtr) : option BackendPtr * Z :=
  fold_left leastConnStep healthy (None, -1).

Inductive Selection :=
| SelNil                  (* return nil *)
| SelBackend (i : nat)    (* return the backend at index i *)
| SelPanic.               (* index out of range *)

(** [atomic.AddInt64(&b.ActiveRequests, 1)] on the backend at index [i]. *)
Definition bump (d : Z) (i : nat) (g : Globals) : Globals :=
  withBackends (alter (addActive d) i (backends g)) g.

Definition activeAt (g : Globals) (i : nat) : Z :=
  match backends g !! i with
  | Some b => ActiveRequests b
  | None => 0
  end.

Definition getNextHealthyBackend (g : Globals) : Globals * Selection :=
  let healthy := healthySet g in
  if (length healthy =? 0)%nat then (g, SelNil)
  else if String.eqb (strategy g) StrategyLeastConnections then
    match fst (leastConnScan healthy) with
    | Some (i, b) =>
        let g1 := bump 1 i g in
        (logf (LogSelectedLeastConn (Name b) (activeAt g1 i)) g1, SelBackend i)
    | None => (g, SelNil)
    end
  else
    let c := Int.AddUint64 (counter g) 1 in
    let g1 := withCounter c g in
    let index := Int.rem (Int.int_of_uint64 c) (Z.of_nat (length healthy)) in
    if index <? 0 then (g1, SelPanic)
    else
      match healthy !! Z.to_nat index with
      | Some (i, b) =>
          let g2 := bump 1 i g1 in
          (logf (LogSelectedRR (Name b) (activeAt g2 i)) g2, SelBackend i)
      | None => (g1, SelPanic)
      end.

(* ------------------------------------------------------------------ *)
(** ** The request handler: [handleRequest] *)
(* ------------------------------------------------------------------ *)

(** The deferred function: decrement and log. *)
Definition release (reqID : Z) (i : nat) (name : string) (g : Globals) : Globals :=
  let g1 := bump (-1) i g in
  logf (LogRequestFinish reqID name (activeAt g1 i)) g1.

Definition nameAt (g : Globals) (i : nat) : string :=
  match backends g !! i with
  | Some b => Name b
  | None => EmptyString
  end.

Definition urlAt (g : Globals) (i : nat) : Url :=
  match backends g !! i with
  | Some b => URL b
  | None => mkUrl EmptyString EmptyString EmptyString
  end.

Definition handleRequest (reqID : Z) (RoundTrip : Url -> RoundTripResult)
    (g : Globals) : Globals * Outcome :=
  if negb (proxyActive g) then
    (g, Responded (HttpError "Proxy is currently paused" StatusServiceUnavailable))
  else
    match getNextHealthyBackend g with
    | (g1, SelPanic) => (g1, Panicked)
    | (g1, SelNil) =>
        (g1, Responded (HttpError "No healthy backend available" StatusServiceUnavailable))
    | (g1, SelBackend i) =>
        let g2 := logf (LogRequestStart reqID (nameAt g1 i) (activeAt g1 i)) g1 in
        match RoundTrip (urlAt g2 i) with
        | RoundTripErr err =>
            (release reqID i (nameAt g2 i) g2,
             Responded (HttpError err StatusBadGateway))
        | RoundTripOk status body =>
            (release reqID i (nameAt g2 i) g2, Responded (Upstream status body))
        end
    end.

(* ------------------------------------------------------------------ *)
(** ** The gate: [handleProxyPause], [handleProxyResume], [handleProxyState] *)
(* ------------------------------------------------------------------ *)

Definition handleProxyPause (g : Globals) : Globals * Response :=
  (logf LogProxyDisabled (withProxyActive false g),
   Json [("status", "paused"); ("message", "Proxy disabled")]).

Definition handleProxyResume (g : Globals) : Globals * Response :=
  (logf LogProxyEnabled (withProxyActive true g),
   Json [("status", "active"); ("message", "Proxy enabled")]).

Definition handleProxyState (g : Globals) : Globals * Response :=
  (g, Json [("state", if proxyActive g then "active" else "paused")]).

(* ------------------------------------------------------------------ *)
(** ** The strategy and its file: [handleProxyStrategy], [saveStrategy],
       [loadStrategy] *)
(* ------------------------------------------------------------------ *)

(** Answer of [json.NewDecoder(..).Decode(&data)] for a struct with the one
    field [Strategy]: an error, or the decoded field (the empty string when
    the document has no such key). *)
Inductive DecodeResult :=
| DecodeErr (err : string)
| Decoded (Strategy : string).

(** [os.Create] fails or the file is written. *)
Definition saveStrategy (createFails : bool) (s : LoadBalancingStrategy)
    (g : Globals) : Globals :=
  if createFails then logf LogSaveFailed g
  else emit (EWriteStrategyFile s) g.

Inductive StrategyRequest :=
| StrategyGet
| StrategyPost (body : DecodeResult).

Definition currentStrategy (g : Globals) : Response :=
  Json [("strategy", strategy g)].

Definition handleProxyStrategy (createFails : bool) (r : StrategyRequest)
    (g : Globals) : Globals * Response :=
  match r with
  | StrategyGet => (g, currentStrategy g)
  | StrategyPost (DecodeErr err) => (g, HttpError err StatusBadRequest)
  | StrategyPost (Decoded s) =>
      if String.eqb s StrategyRoundRobin then
        let g1 := saveStrategy createFails StrategyRoundRobin
                    (withStrategy StrategyRoundRobin g) in
        let g2 := logf (LogStrategyChanged (strategy g1)) g1 in
        (g2, currentStrategy g2)
      else if String.eqb s StrategyLeastConnections then
        let g1 := saveStrategy createFails StrategyLeastConnections
                    (withStrategy StrategyLeastConnections g) in
        let g2 := logf (LogStrategyChanged (strategy g1)) g1 in
        (g2, currentStrategy g2)
      else (g, HttpError "Invalid strategy" StatusBadRequest)
  end.

(** What [os.Open("strategy.json")] and the decoder find at startup. *)
Inductive StrategyFile :=
| FileNotExist                      (* os.IsNotExist(err) *)
| FileOpenError                     (* any other error of os.Open *)
| FileContents (d : DecodeResult).

Definition loadStrategy (f : StrategyFile) (g : Globals) : Globals :=
  match f with
  | FileNotExist => g
  | FileOpenError => logf LogLoadFailed g
  | FileContents (DecodeErr _) => logf LogDecodeFailed g
  | FileContents (Decoded s) =>
      let g1 :=
        if String.eqb s StrategyRoundRobin then withStrategy StrategyRoundRobin g
        else if String.eqb s StrategyLeastConnections
             then withStrategy StrategyLeastConnections g
        else g in
      logf (LogLoadedStrategy (strategy g1)) g1
  end.

(* ------------------------------------------------------------------ *)
(** ** Backend processes: [startBackend], [handleStartOrRestartBackend],
       [handleStopBackend], [cleanup] *)
(* ------------------------------------------------------------------ *)

(** A computation that may end the whole process ([log.Fatalf], [os.Exit]). *)
Inductive Run (A : Type) :=
| Continue (g : Globals) (a : A)
| Exit (g : Globals) (code : Z).
Arguments Continue {A} g a.
Arguments Exit {A} g code.

(** Answers of the operating system to one call of [startBackend]. *)
Record StartEnv := mkStartEnv {
  binaryMissing : bool;             (* os.IsNotExist(err) of os.Stat *)
  buildFails : bool;                (* buildCmd.Run() returns an error *)
  spawn : option OsProcess          (* cmd.Start(): None is an error *)
}.

(** [b.Cmd != nil && b.Cmd.Process != nil], with the process. *)
Definition attachedProcess (b : Backend) : option OsProcess :=
  match Cmd b with
  | Some c => Process c
  | None => None
  end.

Definition spawnBackend (env : StartEnv) (i : nat) (b : Backend) (g : Globals)
  : Globals :=
  let port := Port (URL b) in
  let g1 := emit (ESpawn port) g in
  match spawn env with
  | None => logf (LogCouldntStart (Name b) port) g1
  | Some p =>
      logf (LogAutoStarted (Name b) port)
        (withBackends (alter (setCmd (Some (mkCmd (Some p)))) i (backends g1)) g1)
  end.

Definition startBackend (env : StartEnv) (i : nat) (b : Backend) (g : Globals)
  : Run unit :=
  if binaryMissing env then
    let g1 := emit EBuild (logf LogBuilding g) in
    if buildFails env then Exit (logf LogBuildError g1) 1
    else Continue (spawnBackend env i b g1) tt
  else Continue (spawnBackend env i b g) tt.

(** [for _, b := range backends { if b.Name == name { ...; return } }] *)
Fixpoint findByName (name : string) (i : nat) (bs : list Backend)
  : option BackendPtr :=
  match bs with
  | [] => None
  | b :: bs' =>
      if String.eqb (Name b) name then Some (i, b)
      else findByName name (S i) bs'
  end.

Definition handleStartOrRestartBackend (name : string) (env : StartEnv)
    (g : Globals) : Run Response :=
  if String.eqb name EmptyString then
    Continue g (HttpError "Parameter 'name' missing" StatusBadRequest)
  else
    match findByName name 0 (backends g) with
    | Some (i, b) =>
        let g1 :=
          match attachedProcess b with
          | Some p => emit (EKill p) (logf (LogRestarting (Name b)) g)
          | None => logf (LogStarting (Name b)) g
          end in
        match startBackend env i b g1 with
        | Exit g2 code => Exit g2 code
        | Continue g2 _ =>
            Continue g2
              (Json [("message", "Backend '" +:+ Name b +:+ "' gestartet/neu gestartet")])
        end
    | None =>
        Continue g (HttpError ("Backend '" +:+ name +:+ "' nicht gefunden") StatusNotFound)
    end.

(** The loop of [handleStopBackend]: the first backend of that name with an
    attached process decides; [None] when the loop runs to its end. *)
Fixpoint stopLoop (Kill : OsProcess -> option string) (name : string)
    (i : nat) (bs : list Backend) (g : Globals) : option (Globals * Response) :=
  match bs with
  | [] => None
  | b :: bs' =>
      if String.eqb (Name b) name then
        match attachedProcess b with
        | Some p =>
            let g1 := emit (EKill p) g in
            match Kill p with
            | Some err =>
                Some (g1, HttpError ("Fehler beim Stoppen von " +:+ name +:+ ": " +:+ err)
                                    StatusInternalServerError)
            | None =>
                Some (logf (LogManuallyStopped (Name b))
                        (withBackends (alter (setHealthy false) i (backends g1)) g1),
                      Json [("message", "Backend '" +:+ Name b +:+ "' gestoppt")])
            end
        | None => stopLoop Kill name (S i) bs' g
        end
      else stopLoop Kill name (S i) bs' g
  end.

Definition handleStopBackend (name : string) (Kill : OsProcess -> option string)
    (g : Globals) : Globals * Response :=
  if String.eqb name EmptyString then
    (g, HttpError "Parameter 'name' fehlt" StatusBadRequest)
  else
    match stopLoop Kill name 0 (backends g) g with
    | Some r => r
    | None =>
        (g, HttpError ("Backend '" +:+ name +:+ "' nicht gefunden oder bereits gestoppt")
                      StatusNotFound)
    end.

Definition cleanupLoop (bs : list Backend) (g : Globals) : Globals :=
  fold_left
    (fun g b =>
       match attachedProcess b with
       | Some p => logf (LogBackendStopped (Name b)) (emit (EKill p) g)
       | None => g
       end) bs g.

Definition cleanup (g : Globals) : Globals :=
  logf LogAllShutdown (cleanupLoop (backends g) (logf LogShutdown g)).

(* ------------------------------------------------------------------ *)
(** ** Health probing: [healthMonitor] *)
(* ------------------------------------------------------------------ *)

(** Answer of [net.DialTimeout]; on success, the clock read right after. *)
Inductive DialResult :=
| DialErr
| DialOk (now : Time).

(** The locked block of the loop body, for one backend. *)
Definition probeBackend (d : DialResult) (b : Backend) : Backend * list LogLine :=
  match d with
  | DialErr =>
      (setHealthy false b,
       if Healthy b then [LogNotAvailable (Name b) (Host (URL b))] else [])
  | DialOk now =>
      (setLastSeen now (setHealthy true b),
       if negb (Healthy b) then [LogAvailableAgain (Name b) (Host (URL b))] else [])
  end.

Definition logAll (ls : list LogLine) (g : Globals) : Globals :=
  fold_left (fun g l => logf l g) ls g.

Definition probe (i : nat) (d : DialResult) (g : Globals) : Globals :=
  match backends g !! i with
  | Some b =>
      let '(b', ls) := probeBackend d b in
      logAll ls (withBackends (<[i := b']> (backends g)) g)
  | None => g
  end.

(** One pass of the inner [for _, b := range backends]. *)
Fixpoint monitorCycle (dial : nat -> DialResult) (i n : nat) (g : Globals) : Globals :=
  match n with
  | O => g
  | S n' => monitorCycle dial (S i) n' (probe i (dial i) g)
  end.

Definition healthMonitor (dial : nat -> DialResult) (g : Globals) : Globals :=
  monitorCycle dial 0 (length (backends g)) g.

(* ------------------------------------------------------------------ *)
(** ** Startup: [main] up to the listener *)
(* ------------------------------------------------------------------ *)

Record Config := mkConfig { CfgName : string; CfgPort : Z }.

(** [newBackend]: the target is [http://localhost:<port>]; [url.Parse]
    rejects a port that is not a run of digits (a negative number), and
    [log.Fatal] ends the process ([None]). *)
Definition newBackend (cfg : Config) : option Backend :=
  if CfgPort cfg <? 0 then None
  else
    let port := pretty (CfgPort cfg) in
    Some (mkBackend (CfgName cfg) (mkUrl "http" ("localhost:" +:+ port) port)
                    false 0 None 0).

(** The package-level variables before [main] runs. *)
Definition initGlobals : Globals :=
  mkGlobals [] 0 false StrategyRoundRobin [].

(** [for _, cfg := range cfgs { b := newBackend(cfg); backends = append(..); startBackend(b) }] *)
Fixpoint startAll (cfgs : list Config) (envs : nat -> StartEnv) (g : Globals)
  : Run unit :=
  match cfgs with
  | [] => Continue g tt
  | cfg :: cfgs' =>
      match newBackend cfg with
      | None => Exit (logf (LogFatal "invalid port") g) 1
      | Some b =>
          let i := length (backends g) in
          match startBackend (envs i) i b (withBackends (backends g ++ [b]) g) with
          | Exit g1 code => Exit g1 code
          | Continue g1 _ => startAll cfgs' envs g1
          end
      end
  end.

(** [main] up to [proxyActive.Store(true)]; [cfgs] is the answer of
    [loadConfig], [None] for an error. *)
Definition mainInit (cfgs : option (list Config)) (f : StrategyFile)
    (envs : nat -> StartEnv) : Run unit :=
  match cfgs with
  | None => Exit (logf LogConfigIssue initGlobals) 1
  | Some cfgs =>
      match startAll cfgs envs (loadStrategy f initGlobals) with
      | Exit g code => Exit g code
      | Continue g _ => Continue (withProxyActive true g) tt
      end
  end.

(* ------------------------------------------------------------------ *)
(** ** The running server: one handler call after the other *)
(* ------------------------------------------------------------------ *)

Inductive Event :=
| EvRequest (reqID : Z) (RoundTrip : Url -> RoundTripResult)
| EvPause
| EvResume
| EvState
| EvStrategy (createFails : bool) (r : StrategyRequest)
| EvStart (name : string) (env : StartEnv)
| EvStop (name : string) (Kill : OsProcess -> option string)
| EvProbe (i : nat) (d : DialResult).

Definition answered (r : Globals * Response) : Run (option Outcome) :=
  Continue (fst r) (Some (Responded (snd r))).

(** A handler call yields an outcome; a probe of the monitor yields none. *)
Definition step (e : Event) (g : Globals) : Run (option Outcome) :=
  match e with
  | EvRequest reqID RoundTrip =>
      let '(g', o) := handleRequest reqID RoundTrip g in Continue g' (Some o)
  | EvPause => answered (handleProxyPause g)
  | EvResume => answered (handleProxyResume g)
  | EvState => answered (handleProxyState g)
  | EvStrategy createFails r => answered (handleProxyStrategy createFails r g)
  | EvStart name env =>
      match handleStartOrRestartBackend name env g with
      | Exit g' code => Exit g' code
      | Continue g' r => Continue g' (Some (Responded r))
      end
  | EvStop name Kill => answered (handleStopBackend name Kill g)
  | EvProbe i d => Continue (probe i d g) None
  end.

(** The outcomes, one per event served, and the last state; the run ends
    early when a handler ends the process. *)
Fixpoint run (evs : list Event) (g : Globals) : list (option Outcome) * Globals :=
  match evs with
  | [] => ([], g)
  | e :: evs' =>
      match step e g with
      | Exit g' _ => ([], g')
      | Continue g' o =>
          let '(os, gf) := run evs' g' in (o :: os, gf)
      end
  end.

Definition isResume (e : Event) : bool :=
  match e with EvResume => true | _ => false end.

Definition isRequest (e : Event) : bool :=
  match e with EvRequest _ _ => true | _ => false end.

(* ------------------------------------------------------------------ *)
(** ** Requests in flight: the handler, one atomic step at a time *)
(* ------------------------------------------------------------------ *)

(** Every inbound request runs in a goroutine of its own; between the atomic
    steps of one request (the selection under the lock, the load for the
    start line, the deferred release) the steps of other requests, of the
    control handlers and of the monitor may run. *)
Inductive Phase :=
| PastGate                 (* past the gate, before getNextHealthyBackend *)
| Selected (i : nat)       (* backend chosen and counted, before the start line *)
| Forwarding (i : nat).    (* release deferred, round trip under way *)

(** The next atomic step of a request: a new phase, or the outcome. *)
Definition advance (reqID : Z) (ph : Phase) (RoundTrip : Url -> RoundTripResult)
    (g : Globals) : Globals * (Phase + Outcome) :=
  match ph with
  | PastGate =>
      match getNextHealthyBackend g with
      | (g1, SelPanic) => (g1, inr Panicked)
      | (g1, SelNil) =>
          (g1, inr (Responded (HttpError "No healthy backend available"
                                         StatusServiceUnavailable)))
      | (g1, SelBackend i) => (g1, inl (Selected i))
      end
  | Selected i =>
      (logf (LogRequestStart reqID (nameAt g i) (activeAt g i)) g,
       inl (Forwarding i))
  | Forwarding i =>
      match RoundTrip (urlAt g i) with
      | RoundTripErr err =>
          (release reqID i (nameAt g i) g,
           inr (Responded (HttpError err StatusBadGateway)))
      | RoundTripOk status body =>
          (release reqID i (nameAt g i) g, inr (Responded (Upstream status body)))
      end
  end.

(** The steps of one request with nothing in between. *)
Definition runPhases (reqID : Z) (RoundTrip : Url -> RoundTripResult)
    (g : Globals) : Globals * Outcome :=
  match advance reqID PastGate RoundTrip g with
  | (g1, inr o) => (g1, o)
  | (g1, inl ph1) =>
      match advance reqID ph1 RoundTrip g1 with
      | (g2, inr o) => (g2, o)
      | (g2, inl ph2) =>
          match advance reqID ph2 RoundTrip g2 with
          | (g3, inr o) => (g3, o)
          | (g3, inl _) => (g3, Panicked)
          end
      end
  end.

Record Server := mkServer {
  globals : Globals;
  inflight : list (Z * Phase)        (* request id and phase *)
}.

Inductive Action :=
| Arrive (reqID : Z)                                  (* the gate check *)
| Advance (k : nat) (RoundTrip : Url -> RoundTripResult)  (* request k steps *)
| Control (e : Event).                                (* a control handler or a probe *)

(** [None]: the action is not enabled, or the process has ended. *)
Definition serverStep (a : Action) (s : Server) : option Server :=
  match a with
  | Arrive reqID =>
      if negb (proxyActive (globals s)) then Some s
      else Some (mkServer (globals s) (inflight s ++ [(reqID, PastGate)]))
  | Advance k RoundTrip =>
      match inflight s !! k with
      | None => None
      | Some (reqID, ph) =>
          match advance reqID ph RoundTrip (globals s) with
          | (g', inl ph') => Some (mkServer g' (<[k := (reqID, ph')]> (inflight s)))
          | (g', inr _) => Some (mkServer g' (delete k (inflight s)))
          end
      end
  | Control e =>
      if isRequest e then None
      else
        match step e (globals s) with
        | Exit _ _ => None
        | Continue g' _ => Some (mkServer g' (inflight s))
        end
  end.

Fixpoint runServer (acts : list Action) (s : Server) : option Server :=
  match acts with
  | [] => Some s
  | a :: acts' =>
      match serverStep a s with
      | None => None
      | Some s' => runServer acts' s'
      end
  end.

(** A request holds backend [i] from its selection to its release. *)
Definition holding (i : nat) (ph : Phase) : bool :=
  match ph with
  | PastGate => false
  | Selected j => Nat.eqb i j
  | Forwarding j => Nat.eqb i j
  end.

Fixpoint held (i : nat) (reqs : list (Z * Phase)) : nat :=
  match reqs with
  | [] => O
  | (_, ph) :: reqs' => ((if holding i ph then 1 else 0) + held i reqs')%nat
  end.

(** Every counter is the number of requests holding its backend (as an
    [int64]). *)
Definition countersMatch (s : Server) : Prop :=
  forall i b, backends (globals s) !! i = Some b ->
    ActiveRequests b = Int.wrap_int64 (Z.of_nat (held i (inflight s))).

(* ------------------------------------------------------------------ *)
(** ** The status list: [handleAPIStatus] *)
(* ------------------------------------------------------------------ *)

Record BackendStatus := mkBackendStatus {
  StatusName : string;
  StatusHost : string;
  StatusHealthy : bool;
  StatusLastSeen : Time;
  StatusActiveRequests : Z
}.

(** One entry of the loop [for _, b := range backends]. *)
Definition statusEntry (b : Backend) : BackendStatus :=
  mkBackendStatus (Name b) (Host (URL b)) (Healthy b) (LastSeen b)
                  (ActiveRequests b).

(** The handler holds the read lock and only reads: the state is returned
    as it was, with the list that is encoded into the response. *)
Definition handleAPIStatus (g : Globals) : Globals * list BackendStatus :=
  (g, statusEntry <$> backends g).

(* ------------------------------------------------------------------ *)
(** ** Vocabulary of the statements *)
(* ------------------------------------------------------------------ *)

(** The load of the proxy: the cursor and the counter of every backend. *)
Definition sameLoad (g g' : Globals) : Prop :=
  counter g' = counter g /\
  ActiveRequests <$> backends g' = ActiveRequests <$> backends g.

Definition pausedResponse : Outcome :=
  Responded (HttpError "Proxy is currently paused" StatusServiceUnavailable).

Definition noneHealthy (g : Globals) : Prop :=
  Forall (fun b => Healthy b = false) (backends g).

(** The indices of the healthy backends, in configuration order. *)
Definition healthyIdx (g : Globals) : list nat := fst <$> healthySet g.

(** [n] selections one after the other, nothing in between. *)
Fixpoint selections (n : nat) (g : Globals) : list Selection * Globals :=
  match n with
  | O => ([], g)
  | S n' =>
      let '(g1, s) := getNextHealthyBackend g in
      let '(ss, gf) := selections n' g1 in
      (s :: ss, gf)
  end.

Definition selectedIs (i : nat) (s : Selection) : bool :=
  match s with
  | SelBackend j => Nat.eqb i j
  | _ => false
  end.

Definition isBackend (s : Selection) : bool :=
  match s with
  | SelBackend _ => true
  | _ => false
  end.

(** How often backend [i] was returned. *)
Fixpoint timesSelected (i : nat) (ss : list Selection) : nat :=
  match ss with
  | [] => O
  | s :: ss' => ((if selectedIs i s then 1 else 0) + timesSelected i ss')%nat
  end.

(** How often the cursor values [c+1 .. c+n] fall on position [j] of a
    healthy set of size [K]. *)
Fixpoint hits (c : Z) (n : nat) (j K : Z) : nat :=
  match n with
  | O => O
  | S n' =>
      let hit := if (c + 1) mod K =? j then 1%nat else 0%nat in
      (hit + hits (c + 1) n' j K)%nat
  end.

(** The artifact is there, or its build succeeds. *)
Definition buildPasses (env : StartEnv) : bool :=
  negb (binaryMissing env) || negb (buildFails env).

(** What a passing build step leaves in the effects. *)
Definition buildEffects (env : StartEnv) : list Effect :=
  if binaryMissing env then [ELog LogBuilding; EBuild] else [].

Definition exited {A : Type} (r : Run A) : bool :=
  match r with
  | Exit _ _ => true
  | Continue _ _ => false
  end.

Definition stateOf {A : Type} (r : Run A) : Globals :=
  match r with
  | Exit g _ => g
  | Continue g _ => g
  end.

(** Two states that differ at most in the gate and the effect trace. *)
Definition agree (g g' : Globals) : Prop :=
  backends g' = backends g /\ counter g' = counter g /\ strategy g' = strategy g.

(** The status entry of a backend fresh from the configuration. *)
Definition freshEntry (cfg : Config) : BackendStatus :=
  mkBackendStatus (CfgName cfg) ("localhost:" +:+ pretty (CfgPort cfg)) false 0 0.

Definition noKill (effs : list Effect) : Prop :=
  forall p, EKill p ∉ effs.

(** The strategy holds one of the two constants. *)
Definition validStrategy (g : Globals) : Prop :=
  strategy g = StrategyRoundRobin \/ strategy g = StrategyLeastConnections.

(** A field of a backend that no setter of the program writes. *)
Definition fixedField {A : Type} (proj : Backend -> A) : Prop :=
  (forall d b, proj (addActive d b) = proj b) /\
  (forall h b, proj (setHealthy h b) = proj b) /\
  (forall t b, proj (setLastSeen t b) = proj b) /\
  (forall c b, proj (setCmd c b) = proj b).

(** What the shutdown loop does for one backend. *)
Definition shutdownOf (b : Backend) : list Effect :=
  match attachedProcess b with
  | Some p => [EKill p; ELog (LogBackendStopped (Name b))]
  | None => []
  end.

Definition isKill (e : Effect) : bool :=
  match e with
  | EKill _ => true
  | _ => false
  end.

(** The fields of a backend that a request never writes. *)
Definition sameButCounter (b b' : Backend) : Prop :=
  Name b' = Name b /\ URL b' = URL b /\ Healthy b' = Healthy b /\
  LastSeen b' = LastSeen b /\ Cmd b' = Cmd b.

(** The fields of the registry that only startup writes. *)
Definition sameRegistry (g g' : Globals) : Prop :=
  Name <$> backends g' = Name <$> backends g /\
  URL <$> backends g' = URL <$> backends g.

(** Sample states: two backends A (port 9001) and B (port 9002). *)
Module Sample.

Definition target (port : string) : Url :=
  mkUrl "http" ("localhost:" +:+ port) port.

Definition running (pid : nat) : option ExecCmd :=
  Some (mkCmd (Some (mkProcess pid))).

Definition A : Backend := mkBackend "A" (target "9001") true 0 (running 1) 0.
Definition B : Backend := mkBackend "B" (target "9002") true 0 (running 2) 0.
Definition C : Backend := mkBackend "C" (target "9003") true 0 (running 3) 0.

Definition roundRobin : Globals :=
  mkGlobals [A; B] 0 true StrategyRoundRobin [].

Definition leastConn : Globals :=
  mkGlobals [addActive 1 A; B] 0 true StrategyLeastConnections [].

Definition paused : Globals :=
  mkGlobals [A; B] 0 false StrategyRoundRobin [].

Definition allDown : Globals :=
  mkGlobals [setHealthy false A; setHealthy false B] 0 true StrategyRoundRobin [].

(** The cursor one step before the sign bit of [int]. *)
Definition cursorAtSignBit : Globals :=
  mkGlobals [A; B; C] Int.MaxInt64 true StrategyRoundRobin [].

(** Two backends, the cursor two steps before the sign bit. *)
Definition nearSignBit : Globals :=
  mkGlobals [A; B] (Int.MaxInt64 - 1) true StrategyRoundRobin [].

Definition upstreamOk (_ : Url) : RoundTripResult := RoundTripOk 200 "ok".
Definition upstreamDown (_ : Url) : RoundTripResult :=
  RoundTripErr "connection refused".

Definition killOk (_ : OsProcess) : option string := None.
Definition killFails (_ : OsProcess) : option string :=
  Some "os: process already finished".

(** Startup with the one backend A, its binary present and its spawn
    succeeding, and no strategy file. *)
Definition bootEnv (_ : nat) : StartEnv :=
  mkStartEnv false false (Some (mkProcess 1)).

Definition bootOne : Run unit :=
  mainInit (Some [mkConfig "A" 9001]) FileNotExist bootEnv.

Definition booted : Globals := stateOf bootOne.

(** A successful probe of A, then a request that gets as far as its
    selection. *)
Definition oneSelected : list Action :=
  [Control (EvProbe 0 (DialOk 5)); Arrive 1; Advance 0 upstreamOk].

(** A request arrives, A is stopped, the request goes on. *)
Definition stopMidway : list Action :=
  [Arrive 1; Control (EvStop "A" killOk); Advance 0 upstreamOk].

(** Least connections with one request being forwarded to A. *)
Definition forwardingToA : Server :=
  mkServer leastConn [(1, Forwarding 0)].

End Sample.

(* ================================================================== *)
(** * Properties *)
(* ================================================================== *)

(* ------------------------------------------------------------------ *)
(** ** Machine integers *)
(* ------------------------------------------------------------------ *)

(** Goals about the ranges of the machine integers. *)
Ltac int_range :=
  unfold Int.is_int64, Int.is_uint64, Int.MinInt64, Int.MaxInt64, Int.MaxUint64 in *;
  lia.

Lemma wrap_int64_id z : Int.is_int64 z -> Int.wrap_int64 z = z.
Proof.
  unfold Int.is_int64, Int.MinInt64, Int.MaxInt64, Int.wrap_int64. intros H.
  rewrite Z.mod_small; lia.
Qed.

Lemma wrap_int64_range z : Int.is_int64 (Int.wrap_int64 z).
Proof.
  unfold Int.is_int64, Int.MinInt64, Int.MaxInt64, Int.wrap_int64.
  pose proof (Z.mod_pos_bound (z + 2 ^ 63) (2 ^ 64)). lia.
Qed.

(** Adding one and taking it away again is the identity on [int64], also
    across the overflow at [MaxInt64]. *)
Lemma AddInt64_inc_dec c :
  Int.is_int64 c -> Int.AddInt64 (Int.AddInt64 c 1) (-1) = c.
Proof.
  intros H. unfold Int.AddInt64, Int.wrap_int64.
  replace ((c + 1 + 2 ^ 63) mod 2 ^ 64 - 2 ^ 63 + -1 + 2 ^ 63)
    with ((c + 1 + 2 ^ 63) mod 2 ^ 64 - 1) by lia.
  rewrite Zminus_mod_idemp_l.
  replace (c + 1 + 2 ^ 63 - 1) with (c + 2 ^ 63) by lia.
  apply (wrap_int64_id c H).
Qed.

Lemma AddInt64_inc c :
  Int.MinInt64 <= c < Int.MaxInt64 -> Int.AddInt64 c 1 = c + 1.
Proof.
  intros H. unfold Int.AddInt64. apply wrap_int64_id. int_range.
Qed.

Lemma AddUint64_inc c :
  0 <= c < Int.MaxUint64 -> Int.AddUint64 c 1 = c + 1.
Proof.
  unfold Int.AddUint64, Int.wrap_uint64, Int.MaxUint64. intros H.
  apply Z.mod_small. lia.
Qed.

Lemma int_of_uint64_small u :
  0 <= u <= Int.MaxInt64 -> Int.int_of_uint64 u = u.
Proof.
  intros H. apply wrap_int64_id. int_range.
Qed.

(* ------------------------------------------------------------------ *)
(** ** Field updates *)
(* ------------------------------------------------------------------ *)

Lemma addActive_inc_dec b :
  Int.is_int64 (ActiveRequests b) -> addActive (-1) (addActive 1 b) = b.
Proof.
  intros H. destruct b as [n u h t c a]. unfold addActive. simpl in *.
  now rewrite AddInt64_inc_dec.
Qed.

Lemma alter_inc_dec (bs : list Backend) i b :
  bs !! i = Some b -> Int.is_int64 (ActiveRequests b) ->
  alter (addActive (-1)) i (alter (addActive 1) i bs) = bs.
Proof.
  intros Hb Hr.
  apply list_eq. intros j. destruct (decide (i = j)) as [->|Hne].
  - rewrite !list_lookup_alter_eq, Hb. simpl. f_equal. now apply addActive_inc_dec.
  - now rewrite !list_lookup_alter_ne.
Qed.

(** An update of fields other than the counter leaves every counter. *)
Lemma alter_keeps_counters (f : Backend -> Backend) i (bs : list Backend) :
  (forall b, ActiveRequests (f b) = ActiveRequests b) ->
  ActiveRequests <$> alter f i bs = ActiveRequests <$> bs.
Proof.
  intros Hf. apply list_eq. intros j. rewrite !list_lookup_fmap.
  destruct (decide (i = j)) as [->|Hne].
  - rewrite list_lookup_alter_eq. destruct (bs !! j); simpl; [|done].
    now rewrite Hf.
  - now rewrite list_lookup_alter_ne.
Qed.

Lemma alter_keeps_health (f : Backend -> Backend) i (bs : list Backend) :
  (forall b, Healthy (f b) = Healthy b) ->
  Healthy <$> alter f i bs = Healthy <$> bs.
Proof.
  intros Hf. apply list_eq. intros j. rewrite !list_lookup_fmap.
  destruct (decide (i = j)) as [->|Hne].
  - rewrite list_lookup_alter_eq. destruct (bs !! j); simpl; [|done].
    now rewrite Hf.
  - now rewrite list_lookup_alter_ne.
Qed.

(* ------------------------------------------------------------------ *)
(** ** The healthy set *)
(* ------------------------------------------------------------------ *)

Lemma healthyFrom_elem k bs i b :
  (i, b) ∈ healthyFrom k bs <->
  exists j, i = (k + j)%nat /\ bs !! j = Some b /\ Healthy b = true.
Proof.
  revert k. induction bs as [|a bs IH]; intros k; simpl.
  - split; [intros H; inversion H | intros (j & _ & H & _); discriminate].
  - destruct (Healthy a) eqn:Ha.
    + rewrite elem_of_cons, IH. split.
      * intros [Heq | (j & -> & Hj & Hb)].
        -- inversion Heq; subst. exists 0%nat. simpl. repeat split; [lia | done].
        -- exists (S j). simpl. repeat split; [lia | done | done].
      * intros ([|j] & -> & Hj & Hb); simpl in Hj.
        -- left. inversion Hj; subst. f_equal. lia.
        -- right. exists j. repeat split; [lia | done | done].
    + rewrite IH. split.
      * intros (j & -> & Hj & Hb). exists (S j). simpl. repeat split; [lia | done | done].
      * intros ([|j] & -> & Hj & Hb); simpl in Hj.
        -- inversion Hj; subst. congruence.
        -- exists j. repeat split; [lia | done | done].
Qed.

Lemma healthySet_elem g i b :
  (i, b) ∈ healthySet g <-> backends g !! i = Some b /\ Healthy b = true.
Proof.
  unfold healthySet. rewrite healthyFrom_elem. split.
  - intros (j & -> & H). exact H.
  - intros H. exists i. split; [lia | exact H].
Qed.

Lemma healthyFrom_ge k bs p : p ∈ healthyFrom k bs -> (k <= fst p)%nat.
Proof.
  destruct p as [i b]. rewrite healthyFrom_elem. intros (j & -> & _). simpl. lia.
Qed.

(** The scan keeps configuration order: what stands before an entry has a
    smaller index, what stands after it a larger one. *)
Lemma healthyFrom_split k bs l1 p l2 :
  healthyFrom k bs = l1 ++ p :: l2 ->
  Forall (fun q => (fst q < fst p)%nat) l1 /\
  Forall (fun q => (fst p < fst q)%nat) l2.
Proof.
  revert k l1. induction bs as [|a bs IH]; intros k l1; simpl.
  - intros H. destruct l1; discriminate.
  - destruct (Healthy a).
    + destruct l1 as [|q l1]; simpl; intros H; inversion H; subst.
      * split; [constructor|]. apply Forall_forall. intros q Hq.
        apply healthyFrom_ge in Hq. simpl. lia.
      * destruct (IH _ _ H2) as [H1 H3]. split; [|exact H3].
        constructor; [|exact H1].
        assert (Hp : p ∈ healthyFrom (S k) bs).
        { rewrite H2. apply elem_of_app. right. apply elem_of_cons. now left. }
        apply healthyFrom_ge in Hp. simpl. lia.
    + apply IH.
Qed.

Lemma healthyFrom_empty k bs :
  healthyFrom k bs = [] <-> Forall (fun b => Healthy b = false) bs.
Proof.
  revert k. induction bs as [|a bs IH]; intros k; simpl.
  - split; [constructor | done].
  - destruct (Healthy a) eqn:Ha.
    + split; [discriminate | intros H; inversion H; congruence].
    + rewrite IH. split; [now constructor | intros H; now inversion H].
Qed.

(** Each index occurs at most once in the healthy set. *)
Lemma healthyFrom_NoDup k bs : NoDup (fst <$> healthyFrom k bs).
Proof.
  revert k. induction bs as [|a bs IH]; intros k; simpl; [constructor|].
  destruct (Healthy a); [|apply IH].
  simpl. constructor; [|apply IH].
  intros Hin. apply list_elem_of_fmap in Hin. destruct Hin as (q & Hq & Hin).
  apply healthyFrom_ge in Hin. simpl in Hq. lia.
Qed.

(* ------------------------------------------------------------------ *)
(** ** The least-connections scan *)
(* ------------------------------------------------------------------ *)

Lemma leastConnScan_snoc l x :
  leastConnScan (l ++ [x]) = leastConnStep (leastConnScan l) x.
Proof. unfold leastConnScan. now rewrite fold_left_app. Qed.

(** With no negative counter in the scanned list, the scan ends on the first
    entry of least count. *)
Lemma leastConnScan_spec l :
  Forall (fun p => 0 <= ActiveRequests (snd p)) l ->
  match l with
  | [] => leastConnScan l = (None, -1)
  | _ :: _ =>
      exists l1 q l2,
        l = l1 ++ q :: l2 /\
        leastConnScan l = (Some q, ActiveRequests (snd q)) /\
        Forall (fun p => ActiveRequests (snd q) < ActiveRequests (snd p)) l1 /\
        Forall (fun p => ActiveRequests (snd q) <= ActiveRequests (snd p)) l2
  end.
Proof.
  induction l as [|x l IH] using rev_ind; intros Hpos; [reflexivity|].
  apply Forall_app in Hpos. destruct Hpos as [Hl Hx].
  rewrite Forall_singleton in Hx. specialize (IH Hl).
  assert (Hgoal : exists l1 q l2,
    l ++ [x] = l1 ++ q :: l2 /\
    leastConnScan (l ++ [x]) = (Some q, ActiveRequests (snd q)) /\
    Forall (fun p => ActiveRequests (snd q) < ActiveRequests (snd p)) l1 /\
    Forall (fun p => ActiveRequests (snd q) <= ActiveRequests (snd p)) l2).
  { rewrite leastConnScan_snoc. destruct l as [|y l'].
    - rewrite IH. exists [], x, []. simpl. repeat split; constructor.
    - destruct IH as (l1 & q & l2 & Heq & Hscan & H1 & H2).
      rewrite Hscan. unfold leastConnStep.
      assert (Hq : 0 <= ActiveRequests (snd q)).
      { rewrite Forall_forall in Hl. apply Hl. rewrite Heq.
        apply elem_of_app. right. apply elem_of_cons. now left. }
      replace (ActiveRequests (snd q) =? -1) with false
        by (symmetry; apply Z.eqb_neq; lia).
      rewrite orb_false_l.
      destruct (ActiveRequests (snd x) <? ActiveRequests (snd q)) eqn:Hlt.
      + apply Z.ltb_lt in Hlt. exists (y :: l'), x, [].
        repeat split; [|constructor].
        rewrite Heq. apply Forall_app. split.
        * eapply Forall_impl; [exact H1|]. simpl. intros. lia.
        * constructor; [lia|]. eapply Forall_impl; [exact H2|]. simpl. intros. lia.
      + apply Z.ltb_ge in Hlt. exists l1, q, (l2 ++ [x]).
        repeat split; [| exact H1 |].
        * rewrite Heq. now rewrite <- app_assoc.
        * apply Forall_app. split; [exact H2|]. now constructor. }
  destruct (l ++ [x]) eqn:E; [|exact Hgoal].
  destruct l; discriminate.
Qed.

(** Whatever the counters are, a non-empty scan ends on one of its entries. *)
Lemma leastConnFold_in l acc :
  match fst (fold_left leastConnStep l acc) with
  | Some p => p ∈ l \/ fst acc = Some p
  | None => l = [] /\ fst acc = None \/ fst acc = None /\ snd acc <> -1
  end.
Proof.
  revert acc. induction l as [|x l IH]; intros [best m].
  - simpl. destruct best; [now right | now left].
  - cbn [fold_left]. specialize (IH (leastConnStep (best, m) x)).
    destruct (fst (fold_left leastConnStep l (leastConnStep (best, m) x))) as [p|].
    + destruct IH as [H | H].
      * left. apply elem_of_cons. now right.
      * unfold leastConnStep in H.
        destruct ((m =? -1) || (ActiveRequests (snd x) <? m)); simpl in H.
        -- left. inversion H. apply elem_of_cons. now left.
        -- now right.
    + right. unfold leastConnStep in IH.
      destruct ((m =? -1) || (ActiveRequests (snd x) <? m)) eqn:E; simpl in IH.
      * destruct IH as [[_ H] | [H _]]; discriminate H.
      * apply orb_false_iff in E. destruct E as [E _]. apply Z.eqb_neq in E.
        simpl. split; [destruct IH as [[_ H] | [H _]]; exact H | exact E].
Qed.

Lemma leastConnScan_in l :
  match fst (leastConnScan l) with
  | Some p => p ∈ l
  | None => l = []
  end.
Proof.
  pose proof (leastConnFold_in l (None, -1)) as H. unfold leastConnScan.
  destruct (fst (fold_left leastConnStep l (None, -1))).
  - destruct H as [H | H]; [exact H | discriminate].
  - destruct H as [[H _] | [_ H]]; [exact H | simpl in H; lia].
Qed.

(* ------------------------------------------------------------------ *)
(** ** What a selection does to the state *)
(* ------------------------------------------------------------------ *)

(** A selection that returns a backend has bumped exactly that backend,
    written one log line and, under round robin, advanced the cursor. *)
Lemma select_backend_inv g g1 i :
  getNextHealthyBackend g = (g1, SelBackend i) ->
  exists b l,
    backends g !! i = Some b /\ Healthy b = true /\
    g1 = logf l (bump 1 i (withCounter (counter g1) g)).
Proof.
  unfold getNextHealthyBackend.
  destruct (length (healthySet g) =? 0)%nat; [discriminate|].
  destruct (String.eqb (strategy g) StrategyLeastConnections).
  - pose proof (leastConnScan_in (healthySet g)) as Hin.
    destruct (fst (leastConnScan (healthySet g))) as [[j b]|]; [|discriminate].
    intros H. inversion H; subst. apply healthySet_elem in Hin.
    destruct Hin as [Hb Hh]. exists b. eexists. repeat split; try eassumption.
  - destruct (_ <? 0); [discriminate|].
    destruct (healthySet g !! _) as [[j b]|] eqn:Hl; [|discriminate].
    intros H. inversion H; subst. apply list_elem_of_lookup_2 in Hl.
    apply healthySet_elem in Hl. destruct Hl as [Hb Hh].
    exists b. eexists. repeat split; try eassumption.
Qed.

(** A selection that returns nil or panics touches no backend. *)
Lemma select_other_inv g g1 sel :
  getNextHealthyBackend g = (g1, sel) ->
  (forall i, sel <> SelBackend i) ->
  g1 = withCounter (counter g1) g.
Proof.
  unfold getNextHealthyBackend. intros H Hsel.
  destruct (length (healthySet g) =? 0)%nat.
  { inversion H; subst. now destruct g1. }
  destruct (String.eqb (strategy g) StrategyLeastConnections).
  - destruct (fst (leastConnScan (healthySet g))) as [[j b]|].
    + inversion H; subst. now destruct (Hsel j).
    + inversion H; subst. now destruct g1.
  - destruct (_ <? 0); [now inversion H|].
    destruct (healthySet g !! _) as [[j b]|]; [|now inversion H].
    inversion H; subst. now destruct (Hsel j).
Qed.

Lemma select_nil_iff g :
  snd (getNextHealthyBackend g) = SelNil <-> healthySet g = [].
Proof.
  unfold getNextHealthyBackend. split.
  - destruct (healthySet g) as [|p l] eqn:E; [done|]. simpl.
    destruct (String.eqb (strategy g) StrategyLeastConnections).
    + pose proof (leastConnScan_in (p :: l)) as Hin.
      destruct (fst (leastConnScan (p :: l))) as [[j b]|]; [discriminate|].
      discriminate Hin.
    + destruct (_ <? 0); [discriminate|].
      destruct (_ !! _) as [[j b]|]; discriminate.
  - intros ->. reflexivity.
Qed.

Lemma select_nil_state g :
  healthySet g = [] -> getNextHealthyBackend g = (g, SelNil).
Proof. unfold getNextHealthyBackend. now intros ->. Qed.

Lemma activeAt_bump d i g b :
  backends g !! i = Some b ->
  activeAt (bump d i g) i = Int.AddInt64 (ActiveRequests b) d.
Proof.
  intros Hb. unfold activeAt, bump. simpl.
  now rewrite list_lookup_alter_eq, Hb.
Qed.

Lemma release_effects reqID i n g :
  effects (release reqID i n g) =
  effects g ++ [ELog (LogRequestFinish reqID n (activeAt (bump (-1) i g) i))].
Proof. reflexivity. Qed.

Lemma release_backends reqID i n g :
  backends (release reqID i n g) = alter (addActive (-1)) i (backends g).
Proof. reflexivity. Qed.

(* ------------------------------------------------------------------ *)
(** ** C1: the in-flight slot is always released *)
(* ------------------------------------------------------------------ *)

(** C1.  A request that passes the gate and gets backend [i] selected runs
    the deferred decrement exactly once, whether the upstream answers or the
    round trip fails: the handler appends to the effects of the selection
    one start line and one finish line, the finish line carries the count
    before selection, and the backends are again what they were before the
    request (so the selected counter is back to its baseline and no other
    backend was touched).  A baseline that is not negative stays so, and the
    count in flight is the baseline plus one below [MaxInt64]. *)
Theorem handleRequest_releases_once reqID RoundTrip g g1 i :
  proxyActive g = true ->
  getNextHealthyBackend g = (g1, SelBackend i) ->
  Int.is_int64 (activeAt g i) ->
  let g' := fst (handleRequest reqID RoundTrip g) in
  let c := activeAt g i in
  effects g' =
    effects g1 ++ [ELog (LogRequestStart reqID (nameAt g i) (Int.AddInt64 c 1));
                   ELog (LogRequestFinish reqID (nameAt g i) c)] /\
  backends g' = backends g /\
  activeAt g' i = c /\
  (0 <= c -> 0 <= activeAt g' i) /\
  (0 <= c < Int.MaxInt64 -> activeAt g1 i = c + 1) /\
  snd (handleRequest reqID RoundTrip g) =
    match RoundTrip (urlAt g i) with
    | RoundTripErr err => Responded (HttpError err StatusBadGateway)
    | RoundTripOk status body => Responded (Upstream status body)
    end.
Proof.
  intros Hgate Hsel Hrange. cbv zeta.
  destruct (select_backend_inv _ _ _ Hsel) as (b & l & Hb & Hh & Hg1).
  assert (Hc : activeAt g i = ActiveRequests b) by (unfold activeAt; now rewrite Hb).
  rewrite Hc in *.
  assert (Hb1 : backends g1 !! i = Some (addActive 1 b)).
  { rewrite Hg1. simpl. now rewrite list_lookup_alter_eq, Hb. }
  assert (Hn1 : nameAt g1 i = Name b) by (unfold nameAt; now rewrite Hb1).
  assert (Hn : nameAt g i = Name b) by (unfold nameAt; now rewrite Hb).
  assert (Hu1 : urlAt g1 i = URL b) by (unfold urlAt; now rewrite Hb1).
  assert (Hu : urlAt g i = URL b) by (unfold urlAt; now rewrite Hb).
  assert (Ha1 : activeAt g1 i = Int.AddInt64 (ActiveRequests b) 1)
    by (unfold activeAt; now rewrite Hb1).
  assert (Hbs : backends g1 = alter (addActive 1) i (backends g))
    by (rewrite Hg1; reflexivity).
  unfold handleRequest. rewrite Hgate, Hsel. cbn [negb].
  set (g2 := logf (LogRequestStart reqID (nameAt g1 i) (activeAt g1 i)) g1).
  assert (Hb2 : backends g2 = backends g1) by reflexivity.
  assert (Hrel : backends (release reqID i (nameAt g2 i) g2) = backends g).
  { rewrite release_backends, Hb2, Hbs. now apply alter_inc_dec with b. }
  assert (Hact : activeAt (bump (-1) i g2) i = ActiveRequests b).
  { rewrite (activeAt_bump _ _ _ (addActive 1 b)) by (now rewrite Hb2).
    simpl. now apply AddInt64_inc_dec. }
  assert (Heff : effects (release reqID i (nameAt g2 i) g2) =
    effects g1 ++ [ELog (LogRequestStart reqID (Name b) (Int.AddInt64 (ActiveRequests b) 1));
                   ELog (LogRequestFinish reqID (Name b) (ActiveRequests b))]).
  { replace (nameAt g2 i) with (Name b) by (unfold nameAt; now rewrite Hb2, Hb1).
    rewrite release_effects, Hact.
    assert (Hg2 : effects g2 =
      effects g1 ++ [ELog (LogRequestStart reqID (nameAt g1 i) (activeAt g1 i))])
      by reflexivity.
    rewrite Hg2, Hn1, Ha1. now rewrite <- app_assoc. }
  assert (Hfin : activeAt (release reqID i (nameAt g2 i) g2) i = ActiveRequests b).
  { unfold activeAt at 1. rewrite Hrel, Hb. reflexivity. }
  replace (urlAt g2 i) with (URL b) by (unfold urlAt; now rewrite Hb2, Hb1).
  rewrite Hn, Hu.
  destruct (RoundTrip (URL b)); cbn [fst snd];
    (repeat split; [exact Heff | exact Hrel | exact Hfin | now rewrite Hfin
                   | intros; rewrite Ha1; apply AddInt64_inc; int_range]).
Qed.

(* ------------------------------------------------------------------ *)
(** ** C2: the pause gate *)
(* ------------------------------------------------------------------ *)

Lemma sameLoad_refl g : sameLoad g g.
Proof. now split. Qed.

Lemma sameLoad_trans g1 g2 g3 : sameLoad g1 g2 -> sameLoad g2 g3 -> sameLoad g1 g3.
Proof. intros [H1 H2] [H3 H4]. split; congruence. Qed.

Lemma insert_keeps_counters (bs : list Backend) i b b' :
  bs !! i = Some b -> ActiveRequests b' = ActiveRequests b ->
  ActiveRequests <$> <[i := b']> bs = ActiveRequests <$> bs.
Proof.
  intros Hb Heq. rewrite list_fmap_insert. apply list_insert_id.
  rewrite list_lookup_fmap, Hb. simpl. now rewrite Heq.
Qed.

Lemma logAll_fields ls g :
  backends (logAll ls g) = backends g /\ counter (logAll ls g) = counter g /\
  proxyActive (logAll ls g) = proxyActive g /\ strategy (logAll ls g) = strategy g.
Proof.
  unfold logAll. revert g. induction ls as [|l ls IH]; intros g; [done|].
  simpl. destruct (IH (logf l g)) as (H1 & H2 & H3 & H4).
  now rewrite H1, H2, H3, H4.
Qed.

Lemma probeBackend_counter d b : ActiveRequests (fst (probeBackend d b)) = ActiveRequests b.
Proof. now destruct d. Qed.

Lemma probe_sameLoad i d g :
  sameLoad g (probe i d g) /\ proxyActive (probe i d g) = proxyActive g.
Proof.
  unfold probe. destruct (backends g !! i) as [b|] eqn:Hb; [|split; [apply sameLoad_refl | done]].
  pose proof (probeBackend_counter d b) as Hc.
  destruct (probeBackend d b) as [b' ls]. simpl in Hc.
  destruct (logAll_fields ls (withBackends (<[i:=b']> (backends g)) g)) as (H1 & H2 & H3 & _).
  unfold sameLoad. rewrite H1, H2, H3. simpl. repeat split.
  now apply insert_keeps_counters with b.
Qed.

Lemma saveStrategy_fields createFails s g :
  backends (saveStrategy createFails s g) = backends g /\
  counter (saveStrategy createFails s g) = counter g /\
  proxyActive (saveStrategy createFails s g) = proxyActive g /\
  strategy (saveStrategy createFails s g) = strategy g.
Proof. unfold saveStrategy. now destruct createFails. Qed.

Lemma handleProxyStrategy_sameLoad createFails r g :
  sameLoad g (fst (handleProxyStrategy createFails r g)) /\
  proxyActive (fst (handleProxyStrategy createFails r g)) = proxyActive g.
Proof.
  unfold handleProxyStrategy, sameLoad.
  destruct r as [|[err|s]]; simpl; [done | done |].
  destruct (String.eqb s StrategyRoundRobin); simpl.
  { destruct createFails; simpl; done. }
  destruct (String.eqb s StrategyLeastConnections); simpl; [|done].
  destruct createFails; simpl; done.
Qed.

Lemma spawnBackend_sameLoad env i b g :
  sameLoad g (spawnBackend env i b g) /\
  proxyActive (spawnBackend env i b g) = proxyActive g.
Proof.
  unfold spawnBackend, sameLoad. destruct (spawn env); simpl; [|done].
  repeat split. now apply alter_keeps_counters.
Qed.

Lemma startBackend_sameLoad env i b g :
  match startBackend env i b g with
  | Continue g' _ => sameLoad g g' /\ proxyActive g' = proxyActive g
  | Exit g' _ => sameLoad g g' /\ proxyActive g' = proxyActive g
  end.
Proof.
  unfold startBackend. destruct (binaryMissing env).
  - destruct (buildFails env); [now split|].
    apply (spawnBackend_sameLoad env i b (emit EBuild (logf LogBuilding g))).
  - apply spawnBackend_sameLoad.
Qed.

Lemma handleStart_sameLoad name env g :
  match handleStartOrRestartBackend name env g with
  | Continue g' _ => sameLoad g g' /\ proxyActive g' = proxyActive g
  | Exit g' _ => sameLoad g g' /\ proxyActive g' = proxyActive g
  end.
Proof.
  unfold handleStartOrRestartBackend.
  destruct (String.eqb name EmptyString); [now split|].
  destruct (findByName name 0 (backends g)) as [[i b]|]; [|now split].
  set (g1 := match attachedProcess b with
             | Some p => emit (EKill p) (logf (LogRestarting (Name b)) g)
             | None => logf (LogStarting (Name b)) g
             end).
  assert (H1 : sameLoad g g1 /\ proxyActive g1 = proxyActive g)
    by (unfold g1; destruct (attachedProcess b); now split).
  pose proof (startBackend_sameLoad env i b g1) as H2.
  destruct (startBackend env i b g1); destruct H1 as [H1 H1'], H2 as [H2 H2'];
    (split; [eapply sameLoad_trans; eassumption | congruence]).
Qed.

Lemma stopLoop_sameLoad Kill name i bs g g' r :
  stopLoop Kill name i bs g = Some (g', r) ->
  sameLoad g g' /\ proxyActive g' = proxyActive g.
Proof.
  revert i. induction bs as [|b bs IH]; intros i; simpl; [discriminate|].
  destruct (String.eqb (Name b) name); [|apply IH].
  destruct (attachedProcess b) as [p|]; [|apply IH].
  destruct (Kill p); intros H; inversion H; subst; [now split|].
  unfold sameLoad. simpl. repeat split. now apply alter_keeps_counters.
Qed.

Lemma handleStop_sameLoad name Kill g :
  sameLoad g (fst (handleStopBackend name Kill g)) /\
  proxyActive (fst (handleStopBackend name Kill g)) = proxyActive g.
Proof.
  unfold handleStopBackend. destruct (String.eqb name EmptyString); [now split|].
  destruct (stopLoop Kill name 0 (backends g) g) as [[g' r]|] eqn:E; [|now split].
  simpl. eapply stopLoop_sameLoad; eassumption.
Qed.

Lemma handleRequest_paused reqID RoundTrip g :
  proxyActive g = false -> handleRequest reqID RoundTrip g = (g, pausedResponse).
Proof. intros H. unfold handleRequest. now rewrite H. Qed.

(** While the gate is closed, no step other than resume opens it, and no
    step changes the load. *)
Lemma step_paused e g :
  proxyActive g = false -> isResume e = false ->
  match step e g with
  | Continue g' o =>
      proxyActive g' = false /\ sameLoad g g' /\
      (isRequest e = true -> o = Some pausedResponse /\ g' = g)
  | Exit g' _ => proxyActive g' = false /\ sameLoad g g'
  end.
Proof.
  intros Hp Hr. destruct e as [reqID rt| | | |cf r|name env|name Kill|i d]; simpl.
  - rewrite handleRequest_paused by exact Hp.
    split; [exact Hp|]. split; [apply sameLoad_refl | done].
  - split; [done|]. split; [now split | discriminate].
  - discriminate.
  - split; [exact Hp|]. split; [apply sameLoad_refl | discriminate].
  - destruct (handleProxyStrategy_sameLoad cf r g) as [H1 H2].
    split; [congruence|]. split; [exact H1 | discriminate].
  - pose proof (handleStart_sameLoad name env g) as H.
    destruct (handleStartOrRestartBackend name env g); destruct H as [H1 H2];
      [|split; [congruence | exact H1]].
    split; [congruence|]. split; [exact H1 | discriminate].
  - destruct (handleStop_sameLoad name Kill g) as [H1 H2].
    split; [congruence|]. split; [exact H1 | discriminate].
  - destruct (probe_sameLoad i d g) as [H1 H2].
    split; [congruence|]. split; [exact H1 | discriminate].
Qed.

(** C2.  With the gate closed, a forward attempt is answered with
    service-unavailable and leaves the whole state as it was; and through
    any sequence of handler calls and probes without a resume, every forward
    attempt gets that answer, the gate stays closed, and the cursor and all
    active-request counters end where they started.  Pause closes the gate
    and resume opens it again. *)
Theorem paused_gate_refuses_all evs g :
  proxyActive g = false ->
  forallb (fun e => negb (isResume e)) evs = true ->
  (forall reqID RoundTrip,
      handleRequest reqID RoundTrip g = (g, pausedResponse) /\
      statusOf (HttpError "Proxy is currently paused" StatusServiceUnavailable) = 503) /\
  (forall k reqID RoundTrip o,
      evs !! k = Some (EvRequest reqID RoundTrip) ->
      fst (run evs g) !! k = Some o -> o = Some pausedResponse) /\
  proxyActive (snd (run evs g)) = false /\
  counter (snd (run evs g)) = counter g /\
  ActiveRequests <$> backends (snd (run evs g)) = ActiveRequests <$> backends g /\
  (forall g0, proxyActive (fst (handleProxyPause g0)) = false) /\
  proxyActive (fst (handleProxyResume (snd (run evs g)))) = true.
Proof.
  intros Hp Hev. split.
  { intros reqID rt. split; [now apply handleRequest_paused | reflexivity]. }
  cut ((forall k reqID RoundTrip o,
          evs !! k = Some (EvRequest reqID RoundTrip) ->
          fst (run evs g) !! k = Some o -> o = Some pausedResponse) /\
       proxyActive (snd (run evs g)) = false /\
       counter (snd (run evs g)) = counter g /\
       ActiveRequests <$> backends (snd (run evs g)) = ActiveRequests <$> backends g).
  { intros (H1 & H2 & H3 & H4). repeat split; assumption. }
  revert g Hp. induction evs as [|e evs IH]; intros g Hp.
  { simpl. repeat split; [|exact Hp]. intros k ? ? ? H. destruct k; discriminate. }
  simpl in Hev. apply andb_true_iff in Hev. destruct Hev as [He Hev].
  apply negb_true_iff in He. pose proof (step_paused e g Hp He) as Hs.
  cbn [run]. destruct (step e g) as [g' o|g' code].
  - destruct Hs as (Hp' & [Hc Hb] & Hreq).
    destruct (IH Hev g' Hp') as (IH1 & IH2 & IH3 & IH4).
    destruct (run evs g') as [os gf] eqn:Erun. cbn [fst snd] in *.
    repeat split; [| exact IH2 | congruence | congruence].
    intros [|k] reqID rt o' Hk Ho; simpl in Hk, Ho.
    + inversion Hk; subst. inversion Ho; subst. now apply Hreq.
    + eapply IH1; eassumption.
  - cbn [fst snd]. destruct Hs as (Hp' & Hc & Hb). repeat split; try assumption.
    intros k ? ? ? _ H. destruct k; discriminate.
Qed.

(* ------------------------------------------------------------------ *)
(** ** Requests in flight: every counter counts its requests *)
(* ------------------------------------------------------------------ *)

(** The handler is its atomic steps run one after the other. *)
Lemma handleRequest_runPhases reqID RoundTrip g :
  proxyActive g = true ->
  handleRequest reqID RoundTrip g = runPhases reqID RoundTrip g.
Proof.
  intros Hgate. unfold handleRequest, runPhases, advance. rewrite Hgate. cbn [negb].
  destruct (getNextHealthyBackend g) as [g1 [|i|]]; try reflexivity.
  now destruct (RoundTrip _).
Qed.

Lemma AddInt64_wrap a d : Int.AddInt64 (Int.wrap_int64 a) d = Int.wrap_int64 (a + d).
Proof.
  unfold Int.AddInt64, Int.wrap_int64.
  replace ((a + 2 ^ 63) mod 2 ^ 64 - 2 ^ 63 + d + 2 ^ 63)
    with ((a + 2 ^ 63) mod 2 ^ 64 + d) by lia.
  rewrite Zplus_mod_idemp_l. f_equal. f_equal. lia.
Qed.

Lemma held_app i reqs reqs' : held i (reqs ++ reqs') = (held i reqs + held i reqs')%nat.
Proof.
  induction reqs as [|[id ph] reqs IH]; simpl; [reflexivity|]. rewrite IH. lia.
Qed.

Lemma held_insert i reqs k id ph ph' :
  reqs !! k = Some (id, ph) ->
  (held i (<[k := (id, ph')]> reqs) + (if holding i ph then 1 else 0) =
   held i reqs + (if holding i ph' then 1 else 0))%nat.
Proof.
  revert k. induction reqs as [|[id0 ph0] reqs IH]; intros k Hk; [discriminate|].
  destruct k as [|k]; simpl in *.
  - inversion Hk; subst. lia.
  - specialize (IH k Hk). lia.
Qed.

Lemma held_delete i reqs k id ph :
  reqs !! k = Some (id, ph) ->
  (held i (delete k reqs) + (if holding i ph then 1 else 0) = held i reqs)%nat.
Proof.
  revert k. induction reqs as [|[id0 ph0] reqs IH]; intros k Hk; [discriminate|].
  destruct k as [|k]; simpl in *.
  - inversion Hk; subst. lia.
  - specialize (IH k Hk). lia.
Qed.

Lemma held_le_length i reqs : (held i reqs <= length reqs)%nat.
Proof.
  induction reqs as [|[id ph] reqs IH]; simpl; [lia|].
  destruct (holding i ph); lia.
Qed.

(** A step that keeps all counters and all requests keeps the invariant. *)
Lemma countersMatch_frame s g' :
  ActiveRequests <$> backends g' = ActiveRequests <$> backends (globals s) ->
  countersMatch s -> countersMatch (mkServer g' (inflight s)).
Proof.
  intros Heq Hinv i b Hb. cbn in *.
  assert (Hl : (ActiveRequests <$> backends g') !! i = Some (ActiveRequests b))
    by (now rewrite list_lookup_fmap, Hb).
  rewrite Heq, list_lookup_fmap in Hl.
  destruct (backends (globals s) !! i) as [b0|] eqn:Hb0; [|discriminate].
  inversion Hl as [Ha]. now apply Hinv.
Qed.

Lemma step_keeps_counters e g :
  isRequest e = false ->
  match step e g with
  | Continue g' _ => ActiveRequests <$> backends g' = ActiveRequests <$> backends g
  | Exit _ _ => True
  end.
Proof.
  intros He. destruct e as [reqID rt| | | |cf r|name env|name Kill|i d]; cbn;
    try done.
  - apply (handleProxyStrategy_sameLoad cf r g).
  - pose proof (handleStart_sameLoad name env g) as H.
    destruct (handleStartOrRestartBackend name env g); [apply H | exact I].
  - apply (handleStop_sameLoad name Kill g).
  - apply (probe_sameLoad i d g).
Qed.

Lemma serverStep_countersMatch a s s' :
  countersMatch s -> serverStep a s = Some s' -> countersMatch s'.
Proof.
  intros Hinv. destruct a as [reqID|k rt|e]; cbn [serverStep].
  - destruct (negb (proxyActive (globals s))); intros H; inversion H; subst;
      [exact Hinv|].
    intros i b Hb. cbn in *. rewrite held_app. cbn. rewrite !Nat.add_0_r.
    now apply Hinv.
  - destruct (inflight s !! k) as [[reqID ph]|] eqn:Hk; [|discriminate].
    destruct ph as [|j|j]; cbn [advance].
    + destruct (getNextHealthyBackend (globals s)) as [g1 [|j|]] eqn:Hsel;
        intros H; inversion H; subst; clear H.
      * rewrite (select_other_inv _ _ _ Hsel) by discriminate.
        intros i b Hb. cbn in *. pose proof (held_delete i _ _ _ _ Hk) as Hd.
        cbn in Hd. rewrite Nat.add_0_r in Hd. rewrite Hd. now apply Hinv.
      * destruct (select_backend_inv _ _ _ Hsel) as (b0 & l & Hb0 & _ & ->).
        intros i b Hb. cbn in Hb |- *.
        pose proof (held_insert i _ _ _ _ (Selected j) Hk) as Hd. cbn in Hd.
        rewrite Nat.add_0_r in Hd. rewrite Hd. rewrite list_lookup_alter in Hb.
        destruct (decide (j = i)) as [->|Hne].
        -- rewrite Hb0 in Hb. inversion Hb; subst b. cbn.
           rewrite (Hinv i b0 Hb0), AddInt64_wrap, Nat.eqb_refl. f_equal. lia.
        -- replace (Nat.eqb i j) with false
             by (symmetry; apply Nat.eqb_neq; congruence).
           rewrite Nat.add_0_r. now apply Hinv.
      * rewrite (select_other_inv _ _ _ Hsel) by discriminate.
        intros i b Hb. cbn in *. pose proof (held_delete i _ _ _ _ Hk) as Hd.
        cbn in Hd. rewrite Nat.add_0_r in Hd. rewrite Hd. now apply Hinv.
    + intros H; inversion H; subst; clear H.
      intros i b Hb. cbn in Hb |- *.
      pose proof (held_insert i _ _ _ _ (Forwarding j) Hk) as Hd. cbn in Hd.
      assert (He : held i (<[k:=(reqID, Forwarding j)]> (inflight s))
                   = held i (inflight s)) by lia.
      rewrite He. now apply Hinv.
    + assert (Hrel :
        countersMatch (mkServer (release reqID j (nameAt (globals s) j) (globals s))
                                (delete k (inflight s)))).
      { intros i b Hb. cbn in Hb |- *. pose proof (held_delete i _ _ _ _ Hk) as Hd.
        cbn in Hd. rewrite list_lookup_alter in Hb.
        destruct (decide (j = i)) as [->|Hne].
        - destruct (backends (globals s) !! i) as [b0|] eqn:Hb0; [|discriminate].
          inversion Hb; subst b. cbn. rewrite (Hinv i b0 Hb0), AddInt64_wrap.
          rewrite Nat.eqb_refl in Hd. f_equal. lia.
        - replace (Nat.eqb i j) with false in Hd
            by (symmetry; apply Nat.eqb_neq; congruence).
          rewrite Nat.add_0_r in Hd. rewrite Hd. now apply Hinv. }
      destruct (rt _); intros H; inversion H; subst; now apply Hrel.
  - destruct (isRequest e) eqn:He; [discriminate|].
    pose proof (step_keeps_counters e (globals s) He) as Hs.
    destruct (step e (globals s)) as [g' o|]; [|discriminate].
    intros H; inversion H; subst. now apply countersMatch_frame.
Qed.

(** Whatever the interleaving of requests, control handlers and probes,
    every counter stays the number of requests in flight that hold its
    backend; below 2^63 requests in flight it is therefore never negative. *)
Theorem counters_count_requests_in_flight acts s s' :
  countersMatch s -> runServer acts s = Some s' ->
  countersMatch s' /\
  (Z.of_nat (length (inflight s')) <= Int.MaxInt64 ->
   forall i b, backends (globals s') !! i = Some b ->
     ActiveRequests b = Z.of_nat (held i (inflight s')) /\
     0 <= ActiveRequests b <= Z.of_nat (length (inflight s'))).
Proof.
  revert s. induction acts as [|a acts IH]; intros s Hinv; cbn [runServer].
  - intros H; inversion H; subst. split; [exact Hinv|].
    intros Hlen i b Hb. pose proof (held_le_length i (inflight s')) as Hle.
    rewrite (Hinv i b Hb), wrap_int64_id;
      [lia | int_range].
  - destruct (serverStep a s) as [s1|] eqn:Hstep; [|discriminate].
    apply IH. eapply serverStep_countersMatch; eassumption.
Qed.

(** After startup nothing is in flight and every counter is zero. *)
Lemma startBackend_zero env i b g :
  Forall (fun b => ActiveRequests b = 0) (backends g) ->
  Forall (fun b => ActiveRequests b = 0) (backends (stateOf (startBackend env i b g))).
Proof.
  intros H. unfold startBackend, spawnBackend.
  assert (Halter : forall c,
    Forall (fun b => ActiveRequests b = 0) (alter (setCmd c) i (backends g))).
  { intros c. apply Forall_lookup. intros j x Hx. rewrite list_lookup_alter in Hx.
    rewrite Forall_lookup in H. destruct (decide (i = j)) as [->|Hne].
    - destruct (backends g !! j) as [x0|] eqn:E; [|discriminate].
      inversion Hx; subst x. cbn. now apply (H j x0).
    - now apply (H j x). }
  destruct (binaryMissing env); [destruct (buildFails env)|];
    destruct (spawn env); cbn; auto.
Qed.

Lemma loadStrategy_fields f g :
  backends (loadStrategy f g) = backends g /\
  counter (loadStrategy f g) = counter g /\
  proxyActive (loadStrategy f g) = proxyActive g.
Proof.
  destruct f as [| |[err|s]]; cbn; try done.
  destruct (String.eqb s StrategyRoundRobin); [done|].
  now destruct (String.eqb s StrategyLeastConnections).
Qed.

Lemma startAll_zero cfgs envs g :
  Forall (fun b => ActiveRequests b = 0) (backends g) ->
  Forall (fun b => ActiveRequests b = 0) (backends (stateOf (startAll cfgs envs g))).
Proof.
  revert g. induction cfgs as [|cfg cfgs IH]; intros g Hz; [exact Hz|].
  cbn [startAll]. unfold newBackend.
  destruct (CfgPort cfg <? 0); [exact Hz|].
  set (b := mkBackend _ _ _ _ _ _).
  assert (Hz' : Forall (fun b => ActiveRequests b = 0)
                       (backends (withBackends (backends g ++ [b]) g))).
  { cbn. apply Forall_app. split; [exact Hz|]. now constructor. }
  pose proof (startBackend_zero (envs (length (backends g))) (length (backends g))
                b _ Hz') as Hs.
  destruct (startBackend _ _ b _) as [g1 u|g1 c]; [|exact Hs].
  now apply IH.
Qed.

(** From startup on, through any interleaving, the counters are in the
    domain the least-connections scan relies on. *)
Theorem counters_never_negative cfgs f envs g acts s :
  mainInit cfgs f envs = Continue g tt ->
  runServer acts (mkServer g []) = Some s ->
  Z.of_nat (length (inflight s)) <= Int.MaxInt64 ->
  forall i b, backends (globals s) !! i = Some b ->
    0 <= ActiveRequests b <= Z.of_nat (length (inflight s)).
Proof.
  intros Hinit Hrun Hlen i b Hb.
  assert (Hzero : Forall (fun b => ActiveRequests b = 0) (backends g)).
  { unfold mainInit in Hinit. destruct cfgs as [cfgs|]; [|discriminate].
    pose proof (startAll_zero cfgs envs (loadStrategy f initGlobals)) as Hz.
    destruct (loadStrategy_fields f initGlobals) as (Hbs & _).
    rewrite Hbs in Hz. specialize (Hz ltac:(constructor)).
    destruct (startAll cfgs envs (loadStrategy f initGlobals)) as [g0 u|];
      [|discriminate].
    inversion Hinit; subst. exact Hz. }
  assert (Hinv : countersMatch (mkServer g [])).
  { intros j x Hx. cbn in *. rewrite Forall_lookup in Hzero.
    now rewrite (Hzero j x Hx). }
  destruct (counters_count_requests_in_flight acts _ _ Hinv Hrun) as [_ H].
  now apply (H Hlen i b Hb).
Qed.

(* ------------------------------------------------------------------ *)
(** ** C3: least connections *)
(* ------------------------------------------------------------------ *)

(** C3.  Under LeastConnections, with a healthy backend present and the
    counters of the healthy backends in their domain (not negative, below
    [MaxInt64]), the selection returns a healthy backend whose count is at
    most that of every healthy backend, the one of least index among those
    of least count; and the state returned by that same call (made under the
    lock) has exactly this backend's counter raised by one, the cursor
    untouched and one line logged. *)
Theorem leastConnections_picks_first_minimum g :
  strategy g = StrategyLeastConnections ->
  healthySet g <> [] ->
  (forall i b, backends g !! i = Some b -> Healthy b = true ->
               0 <= ActiveRequests b < Int.MaxInt64) ->
  exists i b g1,
    getNextHealthyBackend g = (g1, SelBackend i) /\
    backends g !! i = Some b /\ Healthy b = true /\
    (forall j b', backends g !! j = Some b' -> Healthy b' = true ->
        ActiveRequests b <= ActiveRequests b' /\
        (ActiveRequests b' = ActiveRequests b -> (i <= j)%nat)) /\
    backends g1 = alter (addActive 1) i (backends g) /\
    activeAt g1 i = ActiveRequests b + 1 /\
    counter g1 = counter g /\
    effects g1 =
      effects g ++ [ELog (LogSelectedLeastConn (Name b) (ActiveRequests b + 1))].
Proof.
  intros Hs Hne Hdom.
  assert (Hpos : Forall (fun p => 0 <= ActiveRequests (snd p)) (healthySet g)).
  { apply Forall_forall. intros [i b] Hin. apply healthySet_elem in Hin.
    destruct Hin as [Hb Hh]. simpl. now apply (Hdom i b). }
  pose proof (leastConnScan_spec _ Hpos) as Hscan.
  destruct (healthySet g) as [|p l] eqn:Eh; [done|].
  destruct Hscan as (l1 & [i b] & l2 & Heq & Hscan & H1 & H2).
  assert (Hin : (i, b) ∈ healthySet g).
  { rewrite Eh, Heq. apply elem_of_app. right. apply elem_of_cons. now left. }
  apply healthySet_elem in Hin. destruct Hin as [Hb Hh].
  assert (Hinc : Int.AddInt64 (ActiveRequests b) 1 = ActiveRequests b + 1).
  { apply AddInt64_inc. specialize (Hdom i b Hb Hh). int_range. }
  assert (Hact : activeAt (bump 1 i g) i = ActiveRequests b + 1).
  { now rewrite (activeAt_bump _ _ _ b). }
  exists i, b. eexists. split.
  { unfold getNextHealthyBackend. rewrite Eh, Hs. cbn [length Nat.eqb].
    rewrite String.eqb_refl, Hscan. cbn [fst]. rewrite Hact. reflexivity. }
  split; [exact Hb|]. split; [exact Hh|]. split.
  { intros j b' Hb' Hh'.
    assert (Hin' : (j, b') ∈ l1 ++ (i, b) :: l2).
    { rewrite <- Heq, <- Eh. now apply healthySet_elem. }
    unfold healthySet in Eh. rewrite Heq in Eh.
    destruct (healthyFrom_split _ _ _ _ _ Eh) as [Hbefore Hafter].
    apply elem_of_app in Hin'. destruct Hin' as [Hin' | Hin'].
    - rewrite Forall_forall in H1. specialize (H1 _ Hin'). simpl in H1.
      split; lia.
    - apply elem_of_cons in Hin'. destruct Hin' as [Hin' | Hin'].
      + inversion Hin'; subst. split; lia.
      + rewrite Forall_forall in H2, Hafter.
        specialize (H2 _ Hin'). specialize (Hafter _ Hin'). simpl in *.
        split; lia. }
  repeat split. exact Hact.
Qed.

(* ------------------------------------------------------------------ *)
(** ** Round robin: the cursor and the index *)
(* ------------------------------------------------------------------ *)

Lemma healthyFrom_idx_ext k bs bs' :
  Healthy <$> bs = Healthy <$> bs' ->
  fst <$> healthyFrom k bs = fst <$> healthyFrom k bs'.
Proof.
  revert k bs'. induction bs as [|a bs IH]; intros k [|a' bs']; simpl;
    try discriminate; [done|].
  intros H. inversion H as [[Ha Hbs]]. rewrite Ha.
  destruct (Healthy a'); simpl; [f_equal|]; now apply IH.
Qed.

Lemma healthyIdx_bump d i g : healthyIdx (bump d i g) = healthyIdx g.
Proof.
  unfold healthyIdx, healthySet, bump. simpl.
  apply healthyFrom_idx_ext. now apply alter_keeps_health.
Qed.

Lemma healthyIdx_length g : length (healthyIdx g) = length (healthySet g).
Proof. unfold healthyIdx. apply length_fmap. Qed.

Lemma healthyIdx_NoDup g : NoDup (healthyIdx g).
Proof. apply healthyFrom_NoDup. Qed.

Lemma healthyIdx_elem g i :
  i ∈ healthyIdx g <-> exists b, backends g !! i = Some b /\ Healthy b = true.
Proof.
  unfold healthyIdx. rewrite list_elem_of_fmap. split.
  - intros ([j b] & -> & Hin). apply healthySet_elem in Hin. now exists b.
  - intros (b & Hb). exists (i, b). split; [done|]. now apply healthySet_elem.
Qed.

Lemma roundRobin_is_not_leastConn :
  String.eqb StrategyRoundRobin StrategyLeastConnections = false.
Proof. reflexivity. Qed.

(** While the advanced cursor is below the sign bit of [int], the index is
    the cursor modulo the size of the healthy set, inside that set. *)
Lemma roundRobin_index_small c K :
  0 <= c < Int.MaxInt64 -> 0 < K ->
  Int.rem (Int.int_of_uint64 (Int.AddUint64 c 1)) K = (c + 1) mod K /\
  0 <= (c + 1) mod K < K.
Proof.
  intros Hc HK.
  rewrite AddUint64_inc by int_range.
  rewrite int_of_uint64_small by int_range.
  unfold Int.rem. rewrite Z.rem_mod_nonneg by lia.
  split; [reflexivity | now apply Z.mod_pos_bound].
Qed.

(** One round-robin selection, for any cursor: the cursor advances by one
    (modulo 2^64), strategy and health flags stay, and the call returns the
    backend at the computed index of the healthy set unless that index is
    negative. *)
Lemma roundRobin_step g :
  strategy g = StrategyRoundRobin ->
  healthyIdx g <> [] ->
  exists g1,
    getNextHealthyBackend g =
      (g1,
       let index := Int.rem (Int.int_of_uint64 (Int.AddUint64 (counter g) 1))
                            (Z.of_nat (length (healthyIdx g))) in
       if index <? 0 then SelPanic
       else match healthyIdx g !! Z.to_nat index with
            | Some i => SelBackend i
            | None => SelPanic
            end) /\
    counter g1 = Int.AddUint64 (counter g) 1 /\
    strategy g1 = strategy g /\
    healthyIdx g1 = healthyIdx g.
Proof.
  intros Hs Hne.
  assert (HK : length (healthySet g) <> 0%nat).
  { rewrite <- healthyIdx_length. now destruct (healthyIdx g). }
  unfold getNextHealthyBackend.
  replace (length (healthySet g) =? 0)%nat with false
    by (symmetry; now apply Nat.eqb_neq).
  rewrite Hs, roundRobin_is_not_leastConn, healthyIdx_length. cbv zeta.
  destruct (_ <? 0); [now eexists|].
  unfold healthyIdx at 1. rewrite list_lookup_fmap.
  destruct (healthySet g !! _) as [[i b]|]; [|now eexists].
  eexists. split; [reflexivity|]. split; [reflexivity|]. split; [exact Hs|].
  apply (healthyIdx_bump 1 i (withCounter (Int.AddUint64 (counter g) 1) g)).
Qed.

Lemma hit_position g i j c :
  healthyIdx g !! j = Some i ->
  0 <= c < Z.of_nat (length (healthyIdx g)) ->
  forall i0, healthyIdx g !! Z.to_nat c = Some i0 ->
  Nat.eqb i i0 = (c =? Z.of_nat j).
Proof.
  intros Hj Hc i0 Hi0.
  destruct (Nat.eqb i i0) eqn:E; symmetry.
  - apply Nat.eqb_eq in E. subst i0. apply Z.eqb_eq.
    pose proof (NoDup_lookup _ _ _ _ (healthyIdx_NoDup g) Hj Hi0). lia.
  - apply Nat.eqb_neq in E. apply Z.eqb_neq. intros ->.
    rewrite Nat2Z.id in Hi0. congruence.
Qed.

(** The signed cursor across the wrap-arounds. *)
Lemma wrap_int64_high z :
  2 ^ 63 <= z < 2 ^ 64 -> Int.wrap_int64 z = z - 2 ^ 64.
Proof.
  intros H. unfold Int.wrap_int64.
  replace (z + 2 ^ 63) with (z - 2 ^ 63 + 1 * 2 ^ 64) by lia.
  rewrite Z_mod_plus_full, Z.mod_small; lia.
Qed.

Lemma AddUint64_range c d : Int.is_uint64 (Int.AddUint64 c d).
Proof.
  unfold Int.is_uint64, Int.AddUint64, Int.wrap_uint64, Int.MaxUint64.
  pose proof (Z.mod_pos_bound (c + d) (2 ^ 64)). lia.
Qed.

(** An index that is not negative is the floor remainder of the signed
    cursor. *)
Lemma rem_nonneg_is_mod z K : 0 < K -> 0 <= Z.rem z K -> Z.rem z K = z mod K.
Proof.
  intros HK Hr. destruct (Z_le_gt_dec 0 z) as [Hz|Hz].
  - now apply Z.rem_mod_nonneg.
  - pose proof (Z.rem_nonpos z K ltac:(lia) ltac:(lia)) as Hn.
    assert (H0 : Z.rem z K = 0) by lia.
    rewrite H0. symmetry. apply Z.rem_mod_eq_0; [lia | exact H0].
Qed.

(** Where the selection does not panic, the signed cursor after the step is
    the signed cursor before it plus one, modulo the size of the healthy
    set; also across the two wrap-arounds. *)
Lemma next_cursor_congr c K :
  Int.is_uint64 c -> 0 < K ->
  0 <= Int.rem (Int.int_of_uint64 (Int.AddUint64 c 1)) K ->
  Int.int_of_uint64 (Int.AddUint64 c 1) mod K = (Int.int_of_uint64 c + 1) mod K.
Proof.
  unfold Int.is_uint64, Int.MaxUint64, Int.rem, Int.int_of_uint64, Int.AddUint64,
    Int.wrap_uint64.
  intros Hc HK Hr.
  destruct (Z_lt_ge_dec c (2 ^ 63 - 1)) as [H1|H1].
  { rewrite (Z.mod_small (c + 1)) by lia.
    rewrite !wrap_int64_id by int_range.
    reflexivity. }
  destruct (Z.eq_dec c (2 ^ 63 - 1)) as [H2|H2].
  { subst c. rewrite (Z.mod_small (2 ^ 63 - 1 + 1)) in * by lia.
    replace (2 ^ 63 - 1 + 1) with (2 ^ 63) in * by lia.
    rewrite (wrap_int64_high (2 ^ 63)) in * by lia.
    rewrite (wrap_int64_id (2 ^ 63 - 1)) by int_range.
    replace (2 ^ 63 - 2 ^ 64) with (- 2 ^ 63) in * by lia.
    replace (2 ^ 63 - 1 + 1) with (2 ^ 63) by lia.
    pose proof (Z.rem_nonpos (- 2 ^ 63) K ltac:(lia) ltac:(lia)) as Hn.
    assert (H0 : Z.rem (- 2 ^ 63) K = 0) by lia.
    apply Z.rem_divide in H0; [|lia].
    rewrite (proj2 (Z.mod_divide (- 2 ^ 63) K ltac:(lia)) H0).
    symmetry. apply Z.mod_divide; [lia|].
    now apply Z.divide_opp_r in H0. }
  destruct (Z.eq_dec c (2 ^ 64 - 1)) as [H3|H3].
  { subst c. replace (2 ^ 64 - 1 + 1) with (1 * 2 ^ 64) by lia.
    rewrite Z.mod_mul by lia.
    rewrite (wrap_int64_id 0) by int_range.
    rewrite (wrap_int64_high (2 ^ 64 - 1)) by lia.
    f_equal; lia. }
  rewrite (Z.mod_small (c + 1)) by lia.
  rewrite !wrap_int64_high by lia. f_equal; lia.
Qed.

Lemma hits_congr c c2 n j K :
  c mod K = c2 mod K -> hits c n j K = hits c2 n j K.
Proof.
  revert c c2. induction n as [|n IH]; intros c c2 H; [reflexivity|].
  cbn [hits].
  assert (H1 : (c + 1) mod K = (c2 + 1) mod K)
    by (rewrite (Zplus_mod c), (Zplus_mod c2), H; reflexivity).
  rewrite H1, (IH (c + 1) (c2 + 1) H1). reflexivity.
Qed.

(** Counting the hits of a residue class in a window of the cursor. *)
Lemma div_succ_step y K :
  0 < K -> (y + 1) / K - y / K = if (y + 1) mod K =? 0 then 1 else 0.
Proof.
  intros HK.
  pose proof (Z.div_mod y K ltac:(lia)) as H1.
  pose proof (Z.div_mod (y + 1) K ltac:(lia)) as H2.
  pose proof (Z.mod_pos_bound y K HK) as B1.
  pose proof (Z.mod_pos_bound (y + 1) K HK) as B2.
  destruct ((y + 1) mod K =? 0) eqn:E.
  - apply Z.eqb_eq in E. nia.
  - apply Z.eqb_neq in E. nia.
Qed.

Lemma mod_shift_eq x j K :
  0 < K -> 0 <= j < K -> ((x mod K =? j) = ((x - j) mod K =? 0)).
Proof.
  intros HK Hj. destruct (x mod K =? j) eqn:E.
  - apply Z.eqb_eq in E. symmetry. apply Z.eqb_eq.
    rewrite Zminus_mod, E, (Z.mod_small j K Hj), Z.sub_diag. now apply Z.mod_0_l; lia.
  - apply Z.eqb_neq in E. symmetry. apply Z.eqb_neq. intros H. apply E.
    pose proof (Z.div_mod (x - j) K ltac:(lia)) as H1. rewrite H in H1.
    replace x with (j + (x - j) / K * K) by lia.
    rewrite Z.mod_add by lia. now apply Z.mod_small.
Qed.

Lemma hits_closed c n j K :
  0 < K -> 0 <= j < K ->
  Z.of_nat (hits c n j K) = (c + Z.of_nat n - j) / K - (c - j) / K.
Proof.
  intros HK Hj. revert c. induction n as [|n IH]; intros c.
  - cbn [hits]. change (Z.of_nat 0) with 0. now rewrite Z.add_0_r, Z.sub_diag.
  - cbn [hits]. rewrite Nat2Z.inj_add, IH.
    rewrite (mod_shift_eq (c + 1) j K HK Hj).
    pose proof (div_succ_step (c - j) K HK) as Hs.
    replace (c - j + 1) with (c + 1 - j) in Hs by lia.
    replace (c + 1 + Z.of_nat n - j) with (c + Z.of_nat (S n) - j) by lia.
    destruct ((c + 1 - j) mod K =? 0); simpl Z.of_nat; lia.
Qed.

Lemma div_window_bounds a n K :
  0 < K -> 0 <= n ->
  n / K <= (a + n) / K - a / K <= (n + K - 1) / K.
Proof.
  intros HK Hn.
  pose proof (Z.div_mod a K ltac:(lia)).
  pose proof (Z.div_mod n K ltac:(lia)).
  pose proof (Z.div_mod (a + n) K ltac:(lia)).
  pose proof (Z.div_mod (n + K - 1) K ltac:(lia)).
  pose proof (Z.mod_pos_bound a K HK).
  pose proof (Z.mod_pos_bound n K HK).
  pose proof (Z.mod_pos_bound (a + n) K HK).
  pose proof (Z.mod_pos_bound (n + K - 1) K HK).
  split; nia.
Qed.

Lemma hits_bounds c n j K :
  (0 < K)%nat -> 0 <= j < Z.of_nat K ->
  (n / K <= hits c n j (Z.of_nat K) <= (n + K - 1) / K)%nat.
Proof.
  intros HK Hj.
  pose proof (hits_closed c n j (Z.of_nat K) ltac:(lia) Hj) as Hc.
  pose proof (div_window_bounds (c - j) (Z.of_nat n) (Z.of_nat K) ltac:(lia) ltac:(lia)) as Hb.
  replace (c - j + Z.of_nat n) with (c + Z.of_nat n - j) in Hb by lia.
  rewrite <- Hc in Hb.
  split; apply Nat2Z.inj_le.
  - rewrite Nat2Z.inj_div. lia.
  - rewrite Nat2Z.inj_div. replace (Z.of_nat (n + K - 1)) with (Z.of_nat n + Z.of_nat K - 1) by lia. lia.
Qed.

(** [n] round-robin selections in a row, each of which returns a backend,
    hit a healthy backend as often as the signed cursor values fall on its
    position. *)
Lemma selections_roundRobin n g i j :
  strategy g = StrategyRoundRobin ->
  Int.is_uint64 (counter g) ->
  healthyIdx g !! j = Some i ->
  forallb isBackend (fst (selections n g)) = true ->
  timesSelected i (fst (selections n g)) =
  hits (Int.int_of_uint64 (counter g)) n (Z.of_nat j)
       (Z.of_nat (length (healthyIdx g))).
Proof.
  revert g. induction n as [|n IH]; intros g Hs Hc Hj Hall; [reflexivity|].
  assert (Hne : healthyIdx g <> []) by (intros E; now rewrite E in Hj).
  assert (HK : 0 < Z.of_nat (length (healthyIdx g)))
    by (destruct (healthyIdx g); [done | simpl; lia]).
  destruct (roundRobin_step g Hs Hne) as (g1 & Hsel & Hc1 & Hs1 & Hidx).
  cbn [selections hits] in *. rewrite Hsel in *.
  specialize (IH g1 ltac:(congruence)).
  rewrite Hidx, Hc1 in IH. specialize (IH (AddUint64_range _ _) Hj).
  destruct (selections n g1) as [ss gf]. cbn [fst forallb] in *.
  apply andb_true_iff in Hall. destruct Hall as [Hfirst Hrest].
  cbn [timesSelected]. rewrite (IH Hrest). clear IH. cbv zeta in Hfirst |- *.
  set (K := Z.of_nat (length (healthyIdx g))) in *.
  set (z := Int.int_of_uint64 (Int.AddUint64 (counter g) 1)) in *.
  destruct (Int.rem z K <? 0) eqn:Hneg; [discriminate|].
  apply Z.ltb_ge in Hneg.
  pose proof (next_cursor_congr (counter g) K Hc HK Hneg) as Hcongr. fold z in Hcongr.
  pose proof (rem_nonneg_is_mod z K HK Hneg) as Hmod.
  destruct (healthyIdx g !! Z.to_nat (Int.rem z K)) as [i0|] eqn:Hi0; [|discriminate].
  cbn [selectedIs].
  assert (Hb : 0 <= Int.rem z K < K)
    by (unfold Int.rem; rewrite Hmod; now apply Z.mod_pos_bound).
  rewrite (hit_position g i j _ Hj Hb i0 Hi0).
  unfold Int.rem. rewrite Hmod, Hcongr.
  f_equal. now apply hits_congr.
Qed.

(** Below the sign bit of [int] every selection returns a backend. *)
Lemma selections_return_below_sign_bit n g :
  strategy g = StrategyRoundRobin ->
  0 <= counter g -> counter g + Z.of_nat n <= Int.MaxInt64 ->
  healthyIdx g <> [] ->
  forallb isBackend (fst (selections n g)) = true.
Proof.
  revert g. induction n as [|n IH]; intros g Hs Hc0 Hc Hne; [reflexivity|].
  assert (HK : 0 < Z.of_nat (length (healthyIdx g)))
    by (destruct (healthyIdx g); [done | simpl; lia]).
  destruct (roundRobin_step g Hs Hne) as (g1 & Hsel & Hc1 & Hs1 & Hidx).
  destruct (roundRobin_index_small (counter g) _ ltac:(lia) HK) as [Hi Hr].
  assert (Hc1' : counter g1 = counter g + 1).
  { rewrite Hc1. apply AddUint64_inc. int_range. }
  cbn [selections]. rewrite Hsel.
  specialize (IH g1 ltac:(congruence) ltac:(lia) ltac:(lia) ltac:(congruence)).
  destruct (selections n g1) as [ss gf]. cbn [fst forallb] in *.
  rewrite IH, andb_true_r. cbv zeta. rewrite Hi.
  replace (_ <? 0) with false by (symmetry; apply Z.ltb_ge; lia).
  assert (Hlt : (Z.to_nat ((counter g + 1) mod Z.of_nat (length (healthyIdx g)))
                 < length (healthyIdx g))%nat) by lia.
  apply lookup_lt_is_Some_2 in Hlt. destruct Hlt as [i0 Hi0]. now rewrite Hi0.
Qed.

(* ------------------------------------------------------------------ *)
(** ** Round robin is fair while every call returns *)
(* ------------------------------------------------------------------ *)

(** X21.  Under RoundRobin, [n] selections in a row against a healthy set
    of size [K] (no probe, stop or start in between), each of which returns
    a backend, return each healthy backend at least floor(n/K) and at most
    ceil(n/K) times, for every value of the cursor. *)
Theorem roundRobin_fair g n i b :
  strategy g = StrategyRoundRobin ->
  Int.is_uint64 (counter g) ->
  forallb isBackend (fst (selections n g)) = true ->
  backends g !! i = Some b -> Healthy b = true ->
  let K := length (healthySet g) in
  (n / K <= timesSelected i (fst (selections n g)) <= (n + K - 1) / K)%nat.
Proof.
  intros Hs Hc Hall Hb Hh K.
  assert (Hin : i ∈ healthyIdx g) by (apply healthyIdx_elem; now exists b).
  apply list_elem_of_lookup_1 in Hin. destruct Hin as [j Hj].
  pose proof (lookup_lt_Some _ _ _ Hj) as Hlt.
  rewrite (selections_roundRobin n g i j Hs Hc Hj Hall).
  unfold K. rewrite <- healthyIdx_length.
  apply hits_bounds; lia.
Qed.

(* ------------------------------------------------------------------ *)
(** ** C9, C4, C5: the round-robin index and the sign bit of [int] *)
(* ------------------------------------------------------------------ *)

(** From the sign bit on, the index is negative unless the size of the
    healthy set divides the signed cursor. *)
Lemma roundRobin_index_negative c K :
  2 ^ 63 <= Int.AddUint64 c 1 -> 0 < K ->
  ~ (K | Int.int_of_uint64 (Int.AddUint64 c 1)) ->
  Int.rem (Int.int_of_uint64 (Int.AddUint64 c 1)) K < 0.
Proof.
  intros Hc HK Hdiv. pose proof (AddUint64_range c 1) as Hr.
  unfold Int.is_uint64, Int.MaxUint64 in Hr.
  unfold Int.int_of_uint64 in *. rewrite wrap_int64_high in * by lia.
  unfold Int.rem.
  pose proof (Z.rem_nonpos (Int.AddUint64 c 1 - 2 ^ 64) K ltac:(lia) ltac:(lia)) as Hn.
  assert (Hz : Z.rem (Int.AddUint64 c 1 - 2 ^ 64) K <> 0).
  { intros H0. apply Hdiv. apply Z.rem_divide; [lia | exact H0]. }
  lia.
Qed.

(** C9.  The index is not in range for every cursor: with the cursor at
    [MaxInt64] and three healthy backends, the advanced cursor is 2^63, its
    conversion to [int] is -2^63, the remainder by 3 is -2, and the slice
    access panics. *)
Theorem roundRobin_index_out_of_range :
  let c := Int.AddUint64 (counter Sample.cursorAtSignBit) 1 in
  c = 2 ^ 63 /\
  Int.int_of_uint64 c = - 2 ^ 63 /\
  Int.rem (Int.int_of_uint64 c)
          (Z.of_nat (length (healthySet Sample.cursorAtSignBit))) = -2 /\
  snd (getNextHealthyBackend Sample.cursorAtSignBit) = SelPanic.
Proof. vm_compute. repeat split. Qed.

(** C4.  Round robin is not fair for every run of selections: with the
    cursor at [MaxInt64] and the three healthy backends A, B and C, three
    calls in a row give a panic, a panic and A, so that B and C are selected
    0 times, less than floor(3/3) = 1. *)
Theorem roundRobin_unfair_at_sign_bit :
  let ss := fst (selections 3 Sample.cursorAtSignBit) in
  strategy Sample.cursorAtSignBit = StrategyRoundRobin /\
  healthyIdx Sample.cursorAtSignBit = [0; 1; 2]%nat /\
  ss = [SelPanic; SelPanic; SelBackend 0] /\
  (timesSelected 1 ss < 3 / length (healthySet Sample.cursorAtSignBit))%nat /\
  (timesSelected 2 ss < 3 / length (healthySet Sample.cursorAtSignBit))%nat.
Proof. vm_compute. repeat split; constructor. Qed.

(** C5.  The selection does not return a backend whenever one is healthy:
    with the cursor at [MaxInt64] and the three healthy backends A, B and C,
    the healthy set is not empty, yet the call returns neither a backend nor
    nil but panics, and the request handler panics with it instead of
    forwarding. *)
Theorem selection_fails_with_healthy_backends :
  healthyIdx Sample.cursorAtSignBit = [0; 1; 2]%nat /\
  ~ noneHealthy Sample.cursorAtSignBit /\
  snd (getNextHealthyBackend Sample.cursorAtSignBit) = SelPanic /\
  (forall i, snd (getNextHealthyBackend Sample.cursorAtSignBit) <> SelBackend i) /\
  snd (handleRequest 7 Sample.upstreamOk Sample.cursorAtSignBit) = Panicked.
Proof.
  split; [reflexivity|]. split.
  { intros H. inversion H as [|b bs Hb _]. discriminate Hb. }
  assert (Hsel : snd (getNextHealthyBackend Sample.cursorAtSignBit) = SelPanic)
    by (vm_compute; reflexivity).
  split; [exact Hsel|]. split.
  - intros i. rewrite Hsel. discriminate.
  - vm_compute. reflexivity.
Qed.

(* ------------------------------------------------------------------ *)
(** ** Stopping a backend *)
(* ------------------------------------------------------------------ *)

Section StopLoop.

Variable Kill : OsProcess -> option string.
Variable name : string.

Lemma stopLoop_first k bs g i b p :
  bs !! i = Some b -> Name b = name -> attachedProcess b = Some p ->
  (forall j b', (j < i)%nat -> bs !! j = Some b' -> Name b' = name ->
                attachedProcess b' = None) ->
  stopLoop Kill name k bs g =
  Some (match Kill p with
        | Some err =>
            (emit (EKill p) g,
             HttpError ("Fehler beim Stoppen von " +:+ name +:+ ": " +:+ err)
                       StatusInternalServerError)
        | None =>
            (logf (LogManuallyStopped name)
               (withBackends (alter (setHealthy false) (k + i)%nat (backends g))
                             (emit (EKill p) g)),
             Json [("message", "Backend '" +:+ name +:+ "' gestoppt")])
        end).
Proof.
  revert k i. induction bs as [|a bs IH]; intros k i Hb Hn Hp Hfirst.
  - discriminate.
  - destruct i as [|i]; simpl in Hb.
    + inversion Hb; subst a. cbn [stopLoop].
      rewrite (proj2 (String.eqb_eq _ _) Hn), Hp, Nat.add_0_r, Hn.
      now destruct (Kill p).
    + cbn [stopLoop].
      replace (k + S i)%nat with (S k + i)%nat by lia.
      assert (Hrec : stopLoop Kill name (S k) bs g = Some
        (match Kill p with
         | Some err =>
             (emit (EKill p) g,
              HttpError ("Fehler beim Stoppen von " +:+ name +:+ ": " +:+ err)
                        StatusInternalServerError)
         | None =>
             (logf (LogManuallyStopped name)
                (withBackends (alter (setHealthy false) (S k + i)%nat (backends g))
                              (emit (EKill p) g)),
              Json [("message", "Backend '" +:+ name +:+ "' gestoppt")])
         end)).
      { apply IH; try assumption. intros j b' Hj. apply (Hfirst (S j)). lia. }
      destruct (String.eqb (Name a) name) eqn:E; [|exact Hrec].
      apply String.eqb_eq in E.
      rewrite (Hfirst 0%nat a ltac:(lia) eq_refl E). exact Hrec.
Qed.

Lemma stopLoop_none k bs g :
  (forall b', b' ∈ bs -> Name b' = name -> attachedProcess b' = None) <->
  stopLoop Kill name k bs g = None.
Proof.
  revert k. induction bs as [|a bs IH]; intros k; cbn [stopLoop].
  - split; [done|]. intros _ b' H. inversion H.
  - destruct (String.eqb (Name a) name) eqn:E.
    + apply String.eqb_eq in E. destruct (attachedProcess a) as [p|] eqn:Hp.
      * split; [|now destruct (Kill p)].
        intros H. specialize (H a ltac:(apply elem_of_cons; now left) E).
        congruence.
      * rewrite <- IH. split.
        -- intros H b' Hin. apply H. apply elem_of_cons. now right.
        -- intros H b' Hin Hn. apply elem_of_cons in Hin.
           destruct Hin as [-> | Hin]; [exact Hp | now apply H].
    + apply String.eqb_neq in E. rewrite <- IH. split.
      * intros H b' Hin. apply H. apply elem_of_cons. now right.
      * intros H b' Hin Hn. apply elem_of_cons in Hin.
        destruct Hin as [-> | Hin]; [congruence | now apply H].
Qed.

Lemma stopLoop_status k bs g g' r :
  stopLoop Kill name k bs g = Some (g', r) -> statusOf r <> StatusNotFound.
Proof.
  revert k. induction bs as [|a bs IH]; intros k; cbn [stopLoop]; [discriminate|].
  destruct (String.eqb (Name a) name); [|apply IH].
  destruct (attachedProcess a) as [p|]; [|apply IH].
  destruct (Kill p); intros H; inversion H; subst; discriminate.
Qed.

End StopLoop.

(** X23.  Given a name, let backend [i] be the first of
    that name with a process attached.  Stop issues one forcible kill of
    that process.  When the kill succeeds, the backend's healthy flag is
    cleared at once, so that it is out of the healthy set without any probe,
    nothing else in the registry changes (the process handle stays
    attached), and the answer is 200.  When the kill reports an error, the
    answer is 500 and the registry is unchanged.  The answer is not-found,
    with the state unchanged, exactly when no backend of that name has a
    process attached. *)
Theorem handleStopBackend_spec name Kill g :
  name <> EmptyString ->
  (forall i b p,
      backends g !! i = Some b -> Name b = name -> attachedProcess b = Some p ->
      (forall j b', (j < i)%nat -> backends g !! j = Some b' -> Name b' = name ->
                    attachedProcess b' = None) ->
      let r := handleStopBackend name Kill g in
      effects (fst r) = effects g ++
        EKill p :: match Kill p with
                   | Some _ => []
                   | None => [ELog (LogManuallyStopped name)]
                   end /\
      match Kill p with
      | None =>
          backends (fst r) = alter (setHealthy false) i (backends g) /\
          backends (fst r) !! i = Some (setHealthy false b) /\
          (i ∉ healthyIdx (fst r)) /\
          statusOf (snd r) = StatusOK
      | Some _ =>
          backends (fst r) = backends g /\
          statusOf (snd r) = StatusInternalServerError
      end) /\
  ((forall b', b' ∈ backends g -> Name b' = name -> attachedProcess b' = None) <->
   handleStopBackend name Kill g =
     (g, HttpError ("Backend '" +:+ name +:+ "' nicht gefunden oder bereits gestoppt")
                   StatusNotFound)).
Proof.
  intros Hname. apply String.eqb_neq in Hname. split.
  - intros i b p Hb Hn Hp Hfirst r. unfold r, handleStopBackend.
    rewrite Hname, (stopLoop_first Kill name 0 _ g i b p Hb Hn Hp Hfirst).
    destruct (Kill p) as [err|]; cbn [fst snd Nat.add].
    + repeat split.
    + assert (Hi : alter (setHealthy false) i (backends g) !! i
                   = Some (setHealthy false b))
        by (now rewrite list_lookup_alter_eq, Hb).
      split; [cbn; now rewrite <- app_assoc|].
      repeat split; [exact Hi|].
      rewrite healthyIdx_elem. intros (b' & Hb' & Hh). cbn in Hb'.
      rewrite Hi in Hb'. inversion Hb'; subst b'. discriminate.
  - unfold handleStopBackend. rewrite Hname.
    rewrite (stopLoop_none Kill name 0 (backends g) g).
    destruct (stopLoop Kill name 0 (backends g) g) as [[g' r]|] eqn:E.
    + split; [discriminate|]. intros H. exfalso.
      apply stopLoop_status in E. inversion H; subst. now apply E.
    + split; reflexivity.
Qed.

(* ------------------------------------------------------------------ *)
(** ** C7: a start that fails *)
(* ------------------------------------------------------------------ *)

Lemma findByName_lookup name k bs i b :
  findByName name k bs = Some (i, b) ->
  exists j, i = (k + j)%nat /\ bs !! j = Some b /\ Name b = name.
Proof.
  revert k. induction bs as [|a bs IH]; intros k; cbn [findByName]; [discriminate|].
  destruct (String.eqb (Name a) name) eqn:E.
  - intros H. inversion H; subst. apply String.eqb_eq in E.
    exists 0%nat. repeat split; [lia | exact E].
  - intros H. destruct (IH _ H) as (j & -> & Hj & Hn).
    exists (S j). repeat split; [lia | exact Hj | exact Hn].
Qed.




(* ------------------------------------------------------------------ *)
(** ** C8: one health probe *)
(* ------------------------------------------------------------------ *)

Lemma logAll_effects ls g :
  effects (logAll ls g) = effects g ++ (ELog <$> ls).
Proof.
  unfold logAll. revert g. induction ls as [|l ls IH]; intros g; simpl.
  - now rewrite app_nil_r.
  - rewrite IH. simpl. now rewrite <- app_assoc.
Qed.

(** C8.  One probe of backend [i]: a successful connect sets healthy to
    true and lastSeen to the clock; a failed connect sets healthy to false
    and keeps lastSeen; the new flag depends on this one outcome only;
    exactly one line is logged when the flag changed and none when it did
    not; name, target, process handle and counter of the backend, every
    other backend, the cursor, the gate and the strategy stay as they
    were. *)
Theorem probe_spec i d g b :
  backends g !! i = Some b ->
  let b' := fst (probeBackend d b) in
  let g' := probe i d g in
  match d with
  | DialOk now => Healthy b' = true /\ LastSeen b' = now
  | DialErr => Healthy b' = false /\ LastSeen b' = LastSeen b
  end /\
  Name b' = Name b /\ URL b' = URL b /\ Cmd b' = Cmd b /\
  ActiveRequests b' = ActiveRequests b /\
  backends g' = <[i := b']> (backends g) /\
  effects g' = effects g ++
    (if Bool.eqb (Healthy b) (Healthy b') then []
     else [ELog (if Healthy b'
                 then LogAvailableAgain (Name b) (Host (URL b))
                 else LogNotAvailable (Name b) (Host (URL b)))]) /\
  counter g' = counter g /\ proxyActive g' = proxyActive g /\
  strategy g' = strategy g.
Proof.
  intros Hb b' g'. unfold g', b', probe. rewrite Hb.
  destruct (probeBackend d b) as [b1 ls] eqn:E. cbn [fst].
  destruct (logAll_fields ls (withBackends (<[i:=b1]> (backends g)) g))
    as (H1 & H2 & H3 & H4).
  rewrite logAll_effects, H1, H2, H3, H4. cbn [backends effects counter proxyActive
    strategy withBackends].
  destruct d as [|now]; cbn [probeBackend] in E; inversion E; subst b1 ls;
    destruct b as [n u [] t c a]; cbn; repeat split.
Qed.

(* ------------------------------------------------------------------ *)
(** ** C10: loading the strategy at startup *)
(* ------------------------------------------------------------------ *)

(** Whether [startAll] ends the process is decided by the configuration and
    the operating system alone. *)
Lemma startBackend_exited env i b g g' :
  exited (startBackend env i b g) = exited (startBackend env i b g') /\
  (length (backends g) = length (backends g') ->
   length (backends (stateOf (startBackend env i b g))) =
   length (backends (stateOf (startBackend env i b g')))).
Proof.
  unfold startBackend, spawnBackend.
  destruct (binaryMissing env); [destruct (buildFails env)|];
    destruct (spawn env); cbn; rewrite ?length_alter; auto.
Qed.

Lemma startAll_exited cfgs envs g g' :
  length (backends g) = length (backends g') ->
  exited (startAll cfgs envs g) = exited (startAll cfgs envs g').
Proof.
  revert g g'. induction cfgs as [|cfg cfgs IH]; intros g g' Hlen; [reflexivity|].
  cbn [startAll]. destruct (newBackend cfg) as [b|]; [|reflexivity].
  rewrite Hlen.
  destruct (startBackend_exited (envs (length (backends g'))) (length (backends g')) b
              (withBackends (backends g ++ [b]) g)
              (withBackends (backends g' ++ [b]) g')) as [He Hl].
  destruct (startBackend _ _ _ (withBackends (backends g ++ [b]) g)) as [g1 u|g1 c];
    destruct (startBackend _ _ _ (withBackends (backends g' ++ [b]) g')) as [g1' u'|g1' c'];
    try discriminate He; [|reflexivity].
  apply IH. apply Hl. cbn. rewrite !length_app. cbn. lia.
Qed.

(** C10.  Whatever is found in place of the strategy file, loading it
    returns (it has no way to end the process) and changes nothing but the
    strategy and the log; the strategy becomes round_robin or
    least_connections when the file decodes to exactly that value, and stays
    what it was (round_robin at startup) when the file is missing,
    unreadable, malformed or names anything else; and whether startup then
    runs through does not depend on the file. *)
Theorem loadStrategy_spec f g :
  backends (loadStrategy f g) = backends g /\
  counter (loadStrategy f g) = counter g /\
  proxyActive (loadStrategy f g) = proxyActive g /\
  strategy (loadStrategy f g) =
    match f with
    | FileContents (Decoded s) =>
        if String.eqb s "round_robin" then StrategyRoundRobin
        else if String.eqb s "least_connections" then StrategyLeastConnections
        else strategy g
    | _ => strategy g
    end /\
  (strategy (loadStrategy f g) <> strategy g ->
   f = FileContents (Decoded "round_robin") \/
   f = FileContents (Decoded "least_connections")) /\
  (f <> FileContents (Decoded "least_connections") ->
   strategy (loadStrategy f initGlobals) = StrategyRoundRobin) /\
  (forall cfgs envs,
     exited (mainInit (Some cfgs) f envs) =
     exited (mainInit (Some cfgs) FileNotExist envs)).
Proof.
  destruct (loadStrategy_fields f g) as (H1 & H2 & H3).
  split; [exact H1|]. split; [exact H2|]. split; [exact H3|].
  assert (Hs : strategy (loadStrategy f g) =
    match f with
    | FileContents (Decoded s) =>
        if String.eqb s "round_robin" then StrategyRoundRobin
        else if String.eqb s "least_connections" then StrategyLeastConnections
        else strategy g
    | _ => strategy g
    end).
  { destruct f as [| |[err|s]]; try reflexivity. cbn [loadStrategy].
    change StrategyRoundRobin with "round_robin".
    change StrategyLeastConnections with "least_connections".
    destruct (String.eqb s "round_robin"); [reflexivity|].
    now destruct (String.eqb s "least_connections"). }
  split; [exact Hs|]. split; [|split].
  - rewrite Hs. destruct f as [| |[err|s]]; try congruence.
    destruct (String.eqb s "round_robin") eqn:E1.
    { apply String.eqb_eq in E1. subst. now left. }
    destruct (String.eqb s "least_connections") eqn:E2; [|congruence].
    apply String.eqb_eq in E2. subst. now right.
  - intros Hf. destruct f as [| |[err|s]]; try reflexivity. cbn [loadStrategy].
    change StrategyRoundRobin with "round_robin".
    change StrategyLeastConnections with "least_connections".
    destruct (String.eqb s "round_robin") eqn:E1; [reflexivity|].
    destruct (String.eqb s "least_connections") eqn:E2; [|reflexivity].
    apply String.eqb_eq in E2. subst. now destruct Hf.
  - intros cfgs envs. unfold mainInit.
    assert (He : exited (startAll cfgs envs (loadStrategy f initGlobals)) =
                 exited (startAll cfgs envs (loadStrategy FileNotExist initGlobals))).
    { apply startAll_exited.
      destruct (loadStrategy_fields f initGlobals) as (-> & _). reflexivity. }
    destruct (startAll cfgs envs (loadStrategy f initGlobals));
      destruct (startAll cfgs envs (loadStrategy FileNotExist initGlobals));
      try discriminate He; reflexivity.
Qed.

(* ================================================================== *)
(** * Further properties of the proxy *)
(* ================================================================== *)

(* ------------------------------------------------------------------ *)
(** ** What a request leaves alone *)
(* ------------------------------------------------------------------ *)

Lemma alter_keeps_proj {A : Type} (proj : Backend -> A) (f : Backend -> Backend)
    i (bs : list Backend) :
  (forall b, proj (f b) = proj b) ->
  proj <$> alter f i bs = proj <$> bs.
Proof.
  intros Hf. apply list_eq. intros j. rewrite !list_lookup_fmap.
  destruct (decide (i = j)) as [->|Hne].
  - rewrite list_lookup_alter_eq. destruct (bs !! j); simpl; [|done].
    now rewrite Hf.
  - now rewrite list_lookup_alter_ne.
Qed.

(** Whatever the selection returns, it writes no field of a backend but the
    counter, and neither the gate nor the strategy. *)
Lemma select_keeps_fields {A : Type} (proj : Backend -> A) g :
  (forall d b, proj (addActive d b) = proj b) ->
  proj <$> backends (fst (getNextHealthyBackend g)) = proj <$> backends g /\
  proxyActive (fst (getNextHealthyBackend g)) = proxyActive g /\
  strategy (fst (getNextHealthyBackend g)) = strategy g.
Proof.
  intros Hproj. destruct (getNextHealthyBackend g) as [g1 sel] eqn:Hsel.
  destruct sel as [|i|].
  - rewrite (select_other_inv _ _ _ Hsel) by discriminate. now cbn.
  - destruct (select_backend_inv _ _ _ Hsel) as (b & l & _ & _ & ->). cbn.
    repeat split. now apply alter_keeps_proj.
  - rewrite (select_other_inv _ _ _ Hsel) by discriminate. now cbn.
Qed.

Lemma handleRequest_keeps_fields {A : Type} (proj : Backend -> A) reqID RoundTrip g :
  (forall d b, proj (addActive d b) = proj b) ->
  proj <$> backends (fst (handleRequest reqID RoundTrip g)) = proj <$> backends g /\
  proxyActive (fst (handleRequest reqID RoundTrip g)) = proxyActive g /\
  strategy (fst (handleRequest reqID RoundTrip g)) = strategy g.
Proof.
  intros Hproj. unfold handleRequest.
  destruct (proxyActive g) eqn:Hgate; cbn [negb]; [|cbn; repeat split; exact Hgate].
  destruct (select_keeps_fields proj g Hproj) as (H1 & H2 & H3).
  destruct (getNextHealthyBackend g) as [g1 [|i|]]; cbn [fst] in *;
    try (repeat split; congruence).
  assert (Hrel : forall n,
    proj <$> backends (release reqID i n
                         (logf (LogRequestStart reqID (nameAt g1 i) (activeAt g1 i)) g1))
    = proj <$> backends g).
  { intros n. rewrite release_backends. cbn [logf emit backends].
    rewrite <- H1. now apply alter_keeps_proj. }
  destruct (RoundTrip _); cbn [fst]; (split; [apply Hrel|]); cbn; split; congruence.
Qed.

(** X1.  A request, whatever its outcome (503, 502, an upstream answer or
    a panic), writes nothing of a backend but its counter: names, targets,
    health flags, last-seen times and process handles are what they were,
    and so are the gate and the strategy.  In particular a failed round
    trip does not mark the backend unhealthy. *)
Theorem handleRequest_keeps_health reqID RoundTrip g :
  let g' := fst (handleRequest reqID RoundTrip g) in
  Name <$> backends g' = Name <$> backends g /\
  URL <$> backends g' = URL <$> backends g /\
  Healthy <$> backends g' = Healthy <$> backends g /\
  LastSeen <$> backends g' = LastSeen <$> backends g /\
  Cmd <$> backends g' = Cmd <$> backends g /\
  healthyIdx g' = healthyIdx g /\
  proxyActive g' = proxyActive g /\
  strategy g' = strategy g.
Proof.
  cbv zeta.
  destruct (handleRequest_keeps_fields Name reqID RoundTrip g ltac:(done)) as (H1 & Hp & Hs).
  destruct (handleRequest_keeps_fields URL reqID RoundTrip g ltac:(done)) as (H2 & _).
  destruct (handleRequest_keeps_fields Healthy reqID RoundTrip g ltac:(done)) as (H3 & _).
  destruct (handleRequest_keeps_fields LastSeen reqID RoundTrip g ltac:(done)) as (H4 & _).
  destruct (handleRequest_keeps_fields Cmd reqID RoundTrip g ltac:(done)) as (H5 & _).
  repeat split; try assumption.
  unfold healthyIdx, healthySet. now apply healthyFrom_idx_ext.
Qed.

(* ------------------------------------------------------------------ *)
(** ** Least connections never fails on a healthy backend *)
(* ------------------------------------------------------------------ *)

(** X2.  Under LeastConnections, with a healthy backend present, the
    selection returns a healthy backend whatever the counters hold (also
    negative ones or [MaxInt64]): it cannot panic and it never advances the
    round-robin cursor. *)
Theorem leastConnections_always_returns g :
  strategy g = StrategyLeastConnections ->
  healthySet g <> [] ->
  exists i b g1,
    getNextHealthyBackend g = (g1, SelBackend i) /\
    backends g !! i = Some b /\ Healthy b = true /\
    counter g1 = counter g /\
    backends g1 = alter (addActive 1) i (backends g).
Proof.
  intros Hs Hne. pose proof (leastConnScan_in (healthySet g)) as Hin.
  unfold getNextHealthyBackend.
  replace (length (healthySet g) =? 0)%nat with false
    by (symmetry; apply Nat.eqb_neq; now destruct (healthySet g)).
  rewrite Hs, String.eqb_refl.
  destruct (fst (leastConnScan (healthySet g))) as [[i b]|]; [|contradiction].
  apply healthySet_elem in Hin. destruct Hin as [Hb Hh].
  exists i, b. eexists. repeat split; assumption.
Qed.

(* ------------------------------------------------------------------ *)
(** ** Round robin: the order of the turns, and the panic *)
(* ------------------------------------------------------------------ *)

(** X3.  Under RoundRobin, below the sign bit of [int], the selections go
    round the healthy set in configuration order: the selection number [m]
    (from 0) returns the healthy backend at position
    [(counter + 1 + m) mod K], and none of them panics. *)
Theorem roundRobin_turn_order n g m :
  strategy g = StrategyRoundRobin ->
  0 <= counter g -> counter g + Z.of_nat n <= Int.MaxInt64 ->
  healthyIdx g <> [] ->
  (m < n)%nat ->
  exists i,
    fst (selections n g) !! m = Some (SelBackend i) /\
    healthyIdx g !!
      Z.to_nat ((counter g + 1 + Z.of_nat m) mod Z.of_nat (length (healthyIdx g)))
    = Some i.
Proof.
  revert g m. induction n as [|n IH]; intros g m Hs Hc0 Hc Hne Hm; [lia|].
  assert (HK : 0 < Z.of_nat (length (healthyIdx g)))
    by (destruct (healthyIdx g); [done | simpl; lia]).
  destruct (roundRobin_step g Hs Hne) as (g1 & Hsel & Hc1 & Hs1 & Hidx).
  destruct (roundRobin_index_small (counter g) _ ltac:(lia) HK) as [Hi Hr].
  assert (Hc1' : counter g1 = counter g + 1).
  { rewrite Hc1. apply AddUint64_inc. int_range. }
  cbv zeta in Hsel. rewrite Hi in Hsel.
  replace (_ <? 0) with false in Hsel by (symmetry; apply Z.ltb_ge; lia).
  assert (Hlt : (Z.to_nat ((counter g + 1) mod Z.of_nat (length (healthyIdx g)))
                 < length (healthyIdx g))%nat) by lia.
  apply lookup_lt_is_Some_2 in Hlt. destruct Hlt as [i0 Hi0]. rewrite Hi0 in Hsel.
  cbn [selections]. rewrite Hsel.
  destruct m as [|m].
  - destruct (selections n g1) as [ss gf]. exists i0. split; [reflexivity|].
    now rewrite Z.add_0_r.
  - destruct (IH g1 m ltac:(congruence) ltac:(lia) ltac:(lia) ltac:(congruence)
                ltac:(lia)) as (i & Hsel' & Hpos).
    destruct (selections n g1) as [ss gf]. exists i. split; [exact Hsel'|].
    rewrite Hidx, Hc1' in Hpos. rewrite <- Hpos. do 3 f_equal. lia.
Qed.

(** X4.  Under RoundRobin, once the advanced cursor has reached 2^63, a
    selection panics whenever the size of the healthy set does not divide
    the cursor read as an [int]: the cursor is advanced all the same, no
    counter is touched, and the request handler panics without an answer. *)
Theorem roundRobin_panics_past_sign_bit reqID RoundTrip g :
  strategy g = StrategyRoundRobin ->
  healthyIdx g <> [] ->
  2 ^ 63 <= Int.AddUint64 (counter g) 1 ->
  ~ (Z.of_nat (length (healthyIdx g))
     | Int.int_of_uint64 (Int.AddUint64 (counter g) 1)) ->
  getNextHealthyBackend g =
    (withCounter (Int.AddUint64 (counter g) 1) g, SelPanic) /\
  (proxyActive g = true ->
   handleRequest reqID RoundTrip g =
     (withCounter (Int.AddUint64 (counter g) 1) g, Panicked)).
Proof.
  intros Hs Hne Hc Hdiv.
  assert (HK : 0 < Z.of_nat (length (healthyIdx g)))
    by (destruct (healthyIdx g); [done | simpl; lia]).
  pose proof (roundRobin_index_negative (counter g) _ Hc HK Hdiv) as Hneg.
  destruct (roundRobin_step g Hs Hne) as (g1 & Hsel & Hc1 & _).
  cbv zeta in Hsel.
  replace (_ <? 0) with true in Hsel by (symmetry; apply Z.ltb_lt; exact Hneg).
  assert (Hg1 : g1 = withCounter (Int.AddUint64 (counter g) 1) g).
  { rewrite (select_other_inv _ _ _ Hsel) by discriminate. now rewrite Hc1. }
  subst g1. split; [exact Hsel|].
  intros Hgate. unfold handleRequest. now rewrite Hgate, Hsel.
Qed.

(* ------------------------------------------------------------------ *)
(** ** Counters and requests in flight, from startup *)
(* ------------------------------------------------------------------ *)

Lemma mainInit_countersMatch cfgs f envs g :
  mainInit cfgs f envs = Continue g tt -> countersMatch (mkServer g []).
Proof.
  intros Hinit.
  assert (Hzero : Forall (fun b => ActiveRequests b = 0) (backends g)).
  { unfold mainInit in Hinit. destruct cfgs as [cfgs|]; [|discriminate].
    pose proof (startAll_zero cfgs envs (loadStrategy f initGlobals)) as Hz.
    destruct (loadStrategy_fields f initGlobals) as (Hbs & _).
    rewrite Hbs in Hz. specialize (Hz ltac:(constructor)).
    destruct (startAll cfgs envs (loadStrategy f initGlobals)) as [g0 u|];
      [|discriminate].
    inversion Hinit; subst. exact Hz. }
  intros j x Hx. cbn in *. rewrite Forall_lookup in Hzero.
  now rewrite (Hzero j x Hx).
Qed.

(** X5.  From startup on, through any interleaving of the atomic steps of
    the requests with control calls and probes, and with fewer than 2^63
    requests in flight, the counter of every backend is exactly the number
    of requests that have selected it and not yet released it. *)
Theorem counters_equal_requests_in_flight cfgs f envs g acts s :
  mainInit cfgs f envs = Continue g tt ->
  runServer acts (mkServer g []) = Some s ->
  Z.of_nat (length (inflight s)) <= Int.MaxInt64 ->
  forall i b, backends (globals s) !! i = Some b ->
    ActiveRequests b = Z.of_nat (held i (inflight s)).
Proof.
  intros Hinit Hrun Hlen i b Hb.
  pose proof (mainInit_countersMatch _ _ _ _ Hinit) as Hinv.
  destruct (counters_count_requests_in_flight acts _ _ Hinv Hrun) as [_ H].
  now apply (H Hlen i b Hb).
Qed.

(* ------------------------------------------------------------------ *)
(** ** The gate is read once *)
(* ------------------------------------------------------------------ *)

Lemma agree_refl g : agree g g.
Proof. now repeat split. Qed.

(** The selection reads the backends, the cursor and the strategy, nothing
    else. *)
Lemma select_agree g g' :
  agree g g' ->
  snd (getNextHealthyBackend g') = snd (getNextHealthyBackend g) /\
  agree (fst (getNextHealthyBackend g)) (fst (getNextHealthyBackend g')).
Proof.
  intros (Hb & Hc & Hs). unfold getNextHealthyBackend, healthySet, agree.
  rewrite Hb, Hc, Hs.
  destruct (length (healthyFrom 0 (backends g)) =? 0)%nat; [now cbn|].
  destruct (String.eqb (strategy g) StrategyLeastConnections).
  - destruct (fst (leastConnScan (healthyFrom 0 (backends g)))) as [[i b]|];
      cbn; [|done]. now rewrite Hb.
  - destruct (_ <? 0); [now cbn|].
    destruct (healthyFrom 0 (backends g) !! _) as [[i b]|]; cbn; [|done].
    now rewrite Hb.
Qed.

Lemma advance_agree reqID ph RoundTrip g g' :
  agree g g' ->
  snd (advance reqID ph RoundTrip g') = snd (advance reqID ph RoundTrip g) /\
  agree (fst (advance reqID ph RoundTrip g)) (fst (advance reqID ph RoundTrip g')).
Proof.
  intros Hag. destruct ph as [|i|i]; cbn [advance].
  - destruct (select_agree g g' Hag) as [Hsel Hst].
    destruct (getNextHealthyBackend g) as [g1 s1], (getNextHealthyBackend g') as [g1' s1'].
    cbn [fst snd] in *. subst s1'. now destruct s1.
  - destruct Hag as (Hb & Hc & Hs). now cbn.
  - destruct Hag as (Hb & Hc & Hs). unfold urlAt, nameAt, agree. rewrite Hb.
    destruct (RoundTrip _); cbn; now rewrite Hb.
Qed.

Lemma runPhases_agree reqID RoundTrip g g' :
  agree g g' ->
  snd (runPhases reqID RoundTrip g') = snd (runPhases reqID RoundTrip g) /\
  agree (fst (runPhases reqID RoundTrip g)) (fst (runPhases reqID RoundTrip g')).
Proof.
  intros Hag. unfold runPhases.
  destruct (advance_agree reqID PastGate RoundTrip g g' Hag) as [H1 A1].
  destruct (advance reqID PastGate RoundTrip g) as [g1 r1],
           (advance reqID PastGate RoundTrip g') as [g1' r1'].
  cbn [fst snd] in *. subst r1'. destruct r1 as [ph1|o]; [|now split].
  destruct (advance_agree reqID ph1 RoundTrip g1 g1' A1) as [H2 A2].
  destruct (advance reqID ph1 RoundTrip g1) as [g2 r2],
           (advance reqID ph1 RoundTrip g1') as [g2' r2'].
  cbn [fst snd] in *. subst r2'. destruct r2 as [ph2|o]; [|now split].
  destruct (advance_agree reqID ph2 RoundTrip g2 g2' A2) as [H3 A3].
  destruct (advance reqID ph2 RoundTrip g2) as [g3 r3],
           (advance reqID ph2 RoundTrip g2') as [g3' r3'].
  cbn [fst snd] in *. subst r3'. now destruct r3.
Qed.

(** X6.  The gate is read once, at the head of the handler: a request that
    has passed it is served as if nothing had happened when the proxy is
    paused before its selection; it gets the same answer, and it leaves the
    backends, the cursor and the strategy as the unpaused run does. *)
Theorem pause_spares_admitted_request reqID RoundTrip g :
  proxyActive g = true ->
  let paused := fst (handleProxyPause g) in
  proxyActive paused = false /\
  snd (runPhases reqID RoundTrip paused) = snd (handleRequest reqID RoundTrip g) /\
  agree (fst (handleRequest reqID RoundTrip g)) (fst (runPhases reqID RoundTrip paused)).
Proof.
  intros Hgate. cbv zeta. split; [reflexivity|].
  rewrite (handleRequest_runPhases reqID RoundTrip g Hgate).
  apply runPhases_agree. now repeat split.
Qed.

(** X7.  Pause followed by resume changes the gate and the log only: the
    next request is answered as it would have been without them and leaves
    the same backends, cursor and strategy, so the round-robin turn and the
    counters carry on where they were. *)
Theorem pause_resume_keeps_turn reqID RoundTrip g :
  proxyActive g = true ->
  let resumed := fst (handleProxyResume (fst (handleProxyPause g))) in
  agree g resumed /\
  proxyActive resumed = true /\
  snd (handleRequest reqID RoundTrip resumed) = snd (handleRequest reqID RoundTrip g) /\
  agree (fst (handleRequest reqID RoundTrip g))
        (fst (handleRequest reqID RoundTrip resumed)).
Proof.
  intros Hgate. cbv zeta.
  set (resumed := fst (handleProxyResume (fst (handleProxyPause g)))).
  assert (Hag : agree g resumed) by now repeat split.
  assert (Hres : proxyActive resumed = true) by reflexivity.
  split; [exact Hag|]. split; [exact Hres|].
  rewrite (handleRequest_runPhases reqID RoundTrip g Hgate).
  rewrite (handleRequest_runPhases reqID RoundTrip resumed Hres).
  now apply runPhases_agree.
Qed.

(* ------------------------------------------------------------------ *)
(** ** Startup *)
(* ------------------------------------------------------------------ *)

Lemma statusEntry_setCmd c b : statusEntry (setCmd c b) = statusEntry b.
Proof. reflexivity. Qed.

Lemma newBackend_entry cfg b :
  newBackend cfg = Some b -> statusEntry b = freshEntry cfg /\ 0 <= CfgPort cfg.
Proof.
  unfold newBackend. destruct (CfgPort cfg <? 0) eqn:E; [discriminate|].
  intros H. inversion H; subst. apply Z.ltb_ge in E. now split.
Qed.

Lemma startBackend_entries env i b g g' :
  startBackend env i b g = Continue g' tt ->
  statusEntry <$> backends g' = statusEntry <$> backends g /\
  counter g' = counter g /\ proxyActive g' = proxyActive g /\
  strategy g' = strategy g.
Proof.
  unfold startBackend, spawnBackend.
  destruct (binaryMissing env); [destruct (buildFails env); [discriminate|]|];
    destruct (spawn env); intros H; inversion H; subst; cbn; repeat split;
    now apply alter_keeps_proj.
Qed.

Lemma startAll_entries cfgs envs g g' :
  startAll cfgs envs g = Continue g' tt ->
  statusEntry <$> backends g' = (statusEntry <$> backends g) ++ (freshEntry <$> cfgs) /\
  Forall (fun c => 0 <= CfgPort c) cfgs /\
  counter g' = counter g /\ proxyActive g' = proxyActive g /\
  strategy g' = strategy g.
Proof.
  revert g. induction cfgs as [|cfg cfgs IH]; intros g; cbn [startAll].
  - intros H. inversion H; subst. cbn. rewrite app_nil_r. repeat split. constructor.
  - destruct (newBackend cfg) as [b|] eqn:Hnew; [|discriminate].
    destruct (newBackend_entry _ _ Hnew) as [Hentry Hport].
    destruct (startBackend _ _ b _) as [g1 []|] eqn:Hstart; [|discriminate].
    destruct (startBackend_entries _ _ _ _ _ Hstart) as (H1 & H2 & H3 & H4).
    intros H. destruct (IH g1 H) as (I1 & I2 & I3 & I4 & I5).
    cbn in H1, H2, H3, H4. rewrite fmap_app in H1. cbn in H1.
    rewrite I1, H1, Hentry, <- app_assoc. cbn.
    repeat split; try congruence. now constructor.
Qed.


Lemma noKill_app effs effs' : noKill effs -> noKill effs' -> noKill (effs ++ effs').
Proof.
  intros H1 H2 p Hin. apply elem_of_app in Hin. destruct Hin as [Hin|Hin];
    [now apply (H1 p) | now apply (H2 p)].
Qed.

Lemma noKill_snoc effs e : noKill effs -> isKill e = false -> noKill (effs ++ [e]).
Proof.
  intros H He. apply noKill_app; [exact H|].
  intros p Hin. apply list_elem_of_singleton in Hin. subst e. discriminate.
Qed.

Lemma startBackend_noKill env i b g :
  noKill (effects g) -> noKill (effects (stateOf (startBackend env i b g))).
Proof.
  intros H. unfold startBackend, spawnBackend.
  destruct (binaryMissing env); [destruct (buildFails env)|];
    destruct (spawn env); cbn; repeat apply noKill_snoc; auto.
Qed.

Lemma startAll_noKill cfgs envs g :
  noKill (effects g) -> noKill (effects (stateOf (startAll cfgs envs g))).
Proof.
  revert g. induction cfgs as [|cfg cfgs IH]; intros g H; [exact H|].
  cbn [startAll]. destruct (newBackend cfg) as [b|].
  - pose proof (startBackend_noKill (envs (length (backends g))) (length (backends g)) b
                  (withBackends (backends g ++ [b]) g) H) as Hs.
    destruct (startBackend _ _ b _) as [g1 u|g1 c]; [now apply IH | exact Hs].
  - cbn. now apply noKill_snoc.
Qed.

Lemma loadStrategy_noKill f g :
  noKill (effects g) -> noKill (effects (loadStrategy f g)).
Proof.
  intros H. destruct f as [| |[err|s]]; cbn [loadStrategy]; try exact H;
    try (apply noKill_snoc; [exact H | reflexivity]).
  apply noKill_snoc; [|reflexivity].
  destruct (String.eqb s StrategyRoundRobin); [exact H|].
  destruct (String.eqb s StrategyLeastConnections); exact H.
Qed.

(** X9.  Startup never kills a process, on whichever path it ends: when it
    is cut short by a fatal error (an unreadable configuration, an invalid
    port, a failed build), the backends spawned before that point are left
    running. *)
Theorem startup_never_kills cfgs f envs :
  noKill (effects (stateOf (mainInit cfgs f envs))).
Proof.
  unfold mainInit. destruct cfgs as [cfgs|].
  - assert (Hload : noKill (effects (loadStrategy f initGlobals))).
    { apply loadStrategy_noKill. intros p Hin. inversion Hin. }
    pose proof (startAll_noKill cfgs envs _ Hload) as H.
    destruct (startAll cfgs envs (loadStrategy f initGlobals)); exact H.
  - cbn. intros p Hin. apply list_elem_of_singleton in Hin. discriminate.
Qed.

(* ------------------------------------------------------------------ *)
(** ** Shutdown: [cleanup] *)
(* ------------------------------------------------------------------ *)

Lemma cleanupLoop_spec bs g :
  effects (cleanupLoop bs g) = effects g ++ flat_map shutdownOf bs /\
  backends (cleanupLoop bs g) = backends g /\
  counter (cleanupLoop bs g) = counter g /\
  proxyActive (cleanupLoop bs g) = proxyActive g /\
  strategy (cleanupLoop bs g) = strategy g.
Proof.
  unfold cleanupLoop. revert g. induction bs as [|b bs IH]; intros g.
  - cbn. now rewrite app_nil_r.
  - cbn [fold_left flat_map]. unfold shutdownOf at 1.
    destruct (attachedProcess b) as [p|].
    + destruct (IH (logf (LogBackendStopped (Name b)) (emit (EKill p) g)))
        as (H1 & H2 & H3 & H4 & H5).
      rewrite H1, H2, H3, H4, H5. cbn [logf emit effects backends counter proxyActive
        strategy]. now rewrite <- !app_assoc.
    + apply IH.
Qed.

(** X10.  Shutdown kills every process whose handle is attached to a
    backend, once per handle and in configuration order, between its two
    log lines; that includes the processes of backends already stopped by
    hand, whose handles stay attached.  It kills nothing else and leaves the
    registry, the cursor, the gate and the strategy as they were. *)
Theorem cleanup_kills_attached g :
  effects (cleanup g) =
    effects g ++ [ELog LogShutdown] ++ flat_map shutdownOf (backends g)
              ++ [ELog LogAllShutdown] /\
  (forall p, EKill p ∈ flat_map shutdownOf (backends g) <->
             exists b, b ∈ backends g /\ attachedProcess b = Some p) /\
  backends (cleanup g) = backends g /\
  counter (cleanup g) = counter g /\
  proxyActive (cleanup g) = proxyActive g /\
  strategy (cleanup g) = strategy g.
Proof.
  unfold cleanup.
  destruct (cleanupLoop_spec (backends g) (logf LogShutdown g)) as (H1 & H2 & H3 & H4 & H5).
  cbn [logf emit effects backends counter proxyActive strategy] in *.
  rewrite H1, H2, H3, H4, H5. split; [now rewrite <- !app_assoc|].
  split; [|done].
  intros p. rewrite list_elem_of_In, in_flat_map. split.
  - intros (b & Hb & Hin). exists b. rewrite list_elem_of_In. split; [exact Hb|].
    unfold shutdownOf in Hin. destruct (attachedProcess b) as [q|]; [|destruct Hin].
    destruct Hin as [Hin|[Hin|[]]]; [congruence | discriminate].
  - intros (b & Hb & Hp). exists b. rewrite <- list_elem_of_In. split; [exact Hb|].
    unfold shutdownOf. rewrite Hp. now left.
Qed.

(* ------------------------------------------------------------------ *)
(** ** The monitor *)
(* ------------------------------------------------------------------ *)

Lemma probe_backends i d g :
  backends (probe i d g) =
  match backends g !! i with
  | Some b => <[i := fst (probeBackend d b)]> (backends g)
  | None => backends g
  end /\
  counter (probe i d g) = counter g /\
  proxyActive (probe i d g) = proxyActive g /\
  strategy (probe i d g) = strategy g.
Proof.
  unfold probe. destruct (backends g !! i) as [b|]; [|done].
  destruct (probeBackend d b) as [b' ls].
  destruct (logAll_fields ls (withBackends (<[i:=b']> (backends g)) g))
    as (H1 & H2 & H3 & H4).
  now rewrite H1, H2, H3, H4.
Qed.

Lemma monitorCycle_spec dial n i g :
  (forall j, backends (monitorCycle dial i n g) !! j =
     (fun b => if (i <=? j)%nat && (j <? i + n)%nat
               then fst (probeBackend (dial j) b) else b) <$> backends g !! j) /\
  counter (monitorCycle dial i n g) = counter g /\
  proxyActive (monitorCycle dial i n g) = proxyActive g /\
  strategy (monitorCycle dial i n g) = strategy g.
Proof.
  revert i g. induction n as [|n IH]; intros i g; cbn [monitorCycle].
  - split; [|done]. intros j.
    replace ((i <=? j)%nat && (j <? i + 0)%nat) with false
      by (symmetry; apply andb_false_iff; destruct (Nat.leb_spec i j);
          [right; apply Nat.ltb_ge; lia | now left]).
    now destruct (backends g !! j).
  - destruct (IH (S i) (probe i (dial i) g)) as (H1 & H2 & H3 & H4).
    destruct (probe_backends i (dial i) g) as (P1 & P2 & P3 & P4).
    split; [|now rewrite H2, H3, H4, P2, P3, P4].
    intros j. rewrite H1, P1.
    destruct (decide (i = j)) as [->|Hne].
    + replace ((S j <=? j)%nat && (j <? S j + n)%nat) with false
        by (symmetry; apply andb_false_iff; left; apply Nat.leb_gt; lia).
      replace ((j <=? j)%nat && (j <? j + S n)%nat) with true
        by (symmetry; apply andb_true_iff; split;
            [apply Nat.leb_le | apply Nat.ltb_lt]; lia).
      destruct (backends g !! j) as [b|] eqn:Hb; [|now rewrite Hb].
      rewrite list_lookup_insert_eq by (now apply lookup_lt_Some with b).
      reflexivity.
    + replace ((S i <=? j)%nat && (j <? S i + n)%nat)
        with ((i <=? j)%nat && (j <? i + S n)%nat).
      * destruct (backends g !! i) as [b|]; [|reflexivity].
        now rewrite list_lookup_insert_ne.
      * destruct (Nat.leb_spec i j), (Nat.leb_spec (S i) j),
          (Nat.ltb_spec j (i + S n)), (Nat.ltb_spec j (S i + n)); try lia; reflexivity.
Qed.

(** X11.  One pass of the monitor sets every backend to the outcome of its
    own dial, independently of the others, and touches neither the cursor,
    the gate nor the strategy; a selection made right after the pass returns
    only a backend whose dial succeeded in it. *)
Theorem healthMonitor_pass dial g :
  (forall j, backends (healthMonitor dial g) !! j =
             (fun b => fst (probeBackend (dial j) b)) <$> backends g !! j) /\
  counter (healthMonitor dial g) = counter g /\
  proxyActive (healthMonitor dial g) = proxyActive g /\
  strategy (healthMonitor dial g) = strategy g /\
  (forall g1 j, getNextHealthyBackend (healthMonitor dial g) = (g1, SelBackend j) ->
                dial j <> DialErr).
Proof.
  unfold healthMonitor.
  destruct (monitorCycle_spec dial (length (backends g)) 0 g) as (H1 & H2 & H3 & H4).
  assert (Hall : forall j,
    backends (monitorCycle dial 0 (length (backends g)) g) !! j =
    (fun b => fst (probeBackend (dial j) b)) <$> backends g !! j).
  { intros j. rewrite H1. destruct (backends g !! j) as [b|] eqn:Hb; [|reflexivity].
    apply lookup_lt_Some in Hb. cbn [fmap option_fmap option_map].
    replace ((0 <=? j)%nat && (j <? 0 + length (backends g))%nat) with true;
      [reflexivity|].
    symmetry. apply andb_true_iff. split; [apply Nat.leb_le | apply Nat.ltb_lt]; lia. }
  split; [exact Hall|]. repeat split; try assumption.
  intros g1 j Hsel Hd.
  destruct (select_backend_inv _ _ _ Hsel) as (b & _ & Hb & Hh & _).
  rewrite Hall in Hb. destruct (backends g !! j) as [b0|]; [|discriminate].
  cbn in Hb. inversion Hb; subst b. rewrite Hd in Hh. discriminate.
Qed.

Lemma probeBackend_again d b :
  probeBackend d (fst (probeBackend d b)) = (fst (probeBackend d b), []).
Proof. destruct d, b as [n u [] t c a]; reflexivity. Qed.

(** X12.  A probe repeated with the same outcome (and, on success, the same
    clock reading) changes nothing and logs nothing: the transition is
    logged by the first probe only. *)
Theorem probe_idempotent i d g :
  probe i d (probe i d g) = probe i d g.
Proof.
  destruct (probe_backends i d g) as (P1 & _).
  destruct (backends g !! i) as [b|] eqn:Hb.
  - unfold probe at 1. rewrite P1.
    rewrite list_lookup_insert_eq by (now apply lookup_lt_Some with b).
    rewrite probeBackend_again. cbn [logAll fold_left].
    rewrite list_insert_insert_eq.
    rewrite <- P1. now destruct (probe i d g).
  - unfold probe. rewrite Hb. now rewrite Hb.
Qed.

(* ------------------------------------------------------------------ *)
(** ** What never changes after startup *)
(* ------------------------------------------------------------------ *)

Lemma insert_keeps_proj {A : Type} (proj : Backend -> A) (bs : list Backend) i b b' :
  bs !! i = Some b -> proj b' = proj b ->
  proj <$> <[i := b']> bs = proj <$> bs.
Proof.
  intros Hb Heq. rewrite list_fmap_insert. apply list_insert_id.
  rewrite list_lookup_fmap, Hb. simpl. now rewrite Heq.
Qed.

Lemma startBackend_keeps_proj {A : Type} (proj : Backend -> A) env i b g :
  (forall c x, proj (setCmd c x) = proj x) ->
  proj <$> backends (stateOf (startBackend env i b g)) = proj <$> backends g /\
  strategy (stateOf (startBackend env i b g)) = strategy g.
Proof.
  intros Hc. unfold startBackend, spawnBackend.
  destruct (binaryMissing env); [destruct (buildFails env)|];
    destruct (spawn env); cbn; (split; [|reflexivity]);
    try reflexivity; now apply alter_keeps_proj.
Qed.

Lemma handleStart_keeps_proj {A : Type} (proj : Backend -> A) name env g :
  (forall c x, proj (setCmd c x) = proj x) ->
  proj <$> backends (stateOf (handleStartOrRestartBackend name env g))
    = proj <$> backends g /\
  strategy (stateOf (handleStartOrRestartBackend name env g)) = strategy g.
Proof.
  intros Hc. unfold handleStartOrRestartBackend.
  destruct (String.eqb name EmptyString); [now split|].
  destruct (findByName name 0 (backends g)) as [[i b]|]; [|now split].
  set (g1 := match attachedProcess b with
             | Some p => emit (EKill p) (logf (LogRestarting (Name b)) g)
             | None => logf (LogStarting (Name b)) g
             end).
  assert (H1 : backends g1 = backends g /\ strategy g1 = strategy g)
    by (unfold g1; now destruct (attachedProcess b)).
  destruct H1 as [H1 H1'].
  destruct (startBackend_keeps_proj proj env i b g1 Hc) as [H2 H2'].
  rewrite H1 in H2. rewrite H1' in H2'.
  now destruct (startBackend env i b g1).
Qed.

Section FixedField.

Context {A : Type} (proj : Backend -> A) (Hfixed : fixedField proj).

Lemma probe_keeps_fixed i d g :
  proj <$> backends (probe i d g) = proj <$> backends g /\
  strategy (probe i d g) = strategy g.
Proof.
  destruct Hfixed as (_ & Hh & Ht & _).
  destruct (probe_backends i d g) as (P1 & _ & _ & P4). rewrite P1, P4.
  split; [|reflexivity].
  destruct (backends g !! i) as [b|] eqn:Hb; [|reflexivity].
  apply insert_keeps_proj with b; [exact Hb|].
  destruct d; cbn; now rewrite ?Ht, ?Hh.
Qed.

Lemma handleStop_keeps_fixed name Kill g :
  proj <$> backends (fst (handleStopBackend name Kill g)) = proj <$> backends g /\
  strategy (fst (handleStopBackend name Kill g)) = strategy g.
Proof.
  destruct Hfixed as (_ & Hh & _ & _). unfold handleStopBackend.
  destruct (String.eqb name EmptyString); [now split|].
  destruct (stopLoop Kill name 0 (backends g) g) as [[g' r]|] eqn:E; [|now split].
  cbn [fst]. revert E. generalize 0%nat. generalize (backends g) at 1 as bs.
  induction bs as [|a bs IH]; intros k; cbn [stopLoop]; [discriminate|].
  destruct (String.eqb (Name a) name); [|apply IH].
  destruct (attachedProcess a) as [p|]; [|apply IH].
  destruct (Kill p); intros H; inversion H; subst; cbn; (split; [|reflexivity]);
    [reflexivity | now apply alter_keeps_proj].
Qed.

Lemma handleProxyStrategy_keeps_fixed createFails r g :
  proj <$> backends (fst (handleProxyStrategy createFails r g)) = proj <$> backends g.
Proof.
  unfold handleProxyStrategy. destruct r as [|[err|s]]; try reflexivity.
  destruct (String.eqb s StrategyRoundRobin); [now destruct createFails|].
  destruct (String.eqb s StrategyLeastConnections); [now destruct createFails|].
  reflexivity.
Qed.

End FixedField.

Lemma handleProxyStrategy_valid createFails r g :
  validStrategy g -> validStrategy (fst (handleProxyStrategy createFails r g)).
Proof.
  unfold handleProxyStrategy, validStrategy. intros Hv.
  destruct r as [|[err|s]]; try exact Hv.
  destruct (String.eqb s StrategyRoundRobin); [destruct createFails; now left|].
  destruct (String.eqb s StrategyLeastConnections); [destruct createFails; now right|].
  exact Hv.
Qed.

Lemma fixedField_Name : fixedField Name.
Proof. now repeat split. Qed.

Lemma fixedField_URL : fixedField URL.
Proof. now repeat split. Qed.

(** Every handler call and every probe keeps a fixed field of every backend,
    and keeps the strategy among the two constants. *)
Lemma step_keeps_fixed {A : Type} (proj : Backend -> A) e g :
  fixedField proj ->
  proj <$> backends (stateOf (step e g)) = proj <$> backends g /\
  (validStrategy g -> validStrategy (stateOf (step e g))).
Proof.
  intros Hfixed. unfold validStrategy.
  destruct e as [reqID rt| | | |cf r|name env|name Kill|i d]; cbn [step answered].
  - destruct (handleRequest_keeps_fields proj reqID rt g (proj1 Hfixed)) as (H1 & _ & H3).
    destruct (handleRequest reqID rt g) as [g' o]. cbn in *. now rewrite H3.
  - now split.
  - now split.
  - now split.
  - cbn. split; [now apply handleProxyStrategy_keeps_fixed|].
    apply handleProxyStrategy_valid.
  - destruct (handleStart_keeps_proj proj name env g (proj2 (proj2 (proj2 Hfixed))))
      as [H1 H2].
    destruct (handleStartOrRestartBackend name env g); cbn in *; now rewrite H2.
  - destruct (handleStop_keeps_fixed proj Hfixed name Kill g) as [H1 H2].
    cbn. now rewrite H2.
  - destruct (probe_keeps_fixed proj Hfixed i d g) as [H1 H2]. cbn. now rewrite H2.
Qed.

Lemma advance_keeps_fixed {A : Type} (proj : Backend -> A) reqID ph RoundTrip g :
  fixedField proj ->
  proj <$> backends (fst (advance reqID ph RoundTrip g)) = proj <$> backends g /\
  strategy (fst (advance reqID ph RoundTrip g)) = strategy g.
Proof.
  intros (Ha & _). destruct ph as [|i|i]; cbn [advance].
  - destruct (select_keeps_fields proj g Ha) as (H1 & _ & H3).
    now destruct (getNextHealthyBackend g) as [g1 [|j|]].
  - now split.
  - destruct (RoundTrip _); cbn; (split; [|reflexivity]); now apply alter_keeps_proj.
Qed.

Lemma serverStep_keeps_fixed {A : Type} (proj : Backend -> A) a s s' :
  fixedField proj ->
  serverStep a s = Some s' ->
  proj <$> backends (globals s') = proj <$> backends (globals s) /\
  (validStrategy (globals s) -> validStrategy (globals s')).
Proof.
  intros Hfixed. destruct a as [reqID|k rt|e]; cbn [serverStep].
  - destruct (negb _); intros H; inversion H; subst; now split.
  - destruct (inflight s !! k) as [[reqID ph]|]; [|discriminate].
    destruct (advance_keeps_fixed proj reqID ph rt (globals s) Hfixed) as [H1 H2].
    unfold validStrategy.
    destruct (advance reqID ph rt (globals s)) as [g' [ph'|o]];
      intros H; inversion H; subst; cbn in *; now rewrite H2.
  - destruct (isRequest e); [discriminate|].
    destruct (step_keeps_fixed proj e (globals s) Hfixed) as [H1 H2].
    destruct (step e (globals s)) as [g' o|]; [|discriminate].
    intros H; inversion H; subst. now split.
Qed.

Lemma runServer_keeps_fixed {A : Type} (proj : Backend -> A) acts s s' :
  fixedField proj ->
  runServer acts s = Some s' ->
  proj <$> backends (globals s') = proj <$> backends (globals s) /\
  (validStrategy (globals s) -> validStrategy (globals s')).
Proof.
  intros Hfixed. revert s. induction acts as [|a acts IH]; intros s; cbn [runServer].
  - intros H; inversion H; subst. now split.
  - destruct (serverStep a s) as [s1|] eqn:Hstep; [|discriminate]. intros Hrun.
    destruct (serverStep_keeps_fixed proj a s s1 Hfixed Hstep) as [H1 H2].
    destruct (IH s1 Hrun) as [I1 I2]. split; [congruence | auto].
Qed.

(** X13.  The registry is fixed at startup: through any interleaving of
    requests, control calls and probes, no backend is added, removed,
    renamed or retargeted, so the status list always shows the same names
    and hosts in the same order. *)
Theorem registry_never_changes acts s s' :
  runServer acts s = Some s' ->
  sameRegistry (globals s) (globals s') /\
  length (backends (globals s')) = length (backends (globals s)) /\
  StatusName <$> snd (handleAPIStatus (globals s'))
    = StatusName <$> snd (handleAPIStatus (globals s)) /\
  StatusHost <$> snd (handleAPIStatus (globals s'))
    = StatusHost <$> snd (handleAPIStatus (globals s)).
Proof.
  intros Hrun.
  destruct (runServer_keeps_fixed Name acts s s' fixedField_Name Hrun) as [Hn _].
  destruct (runServer_keeps_fixed URL acts s s' fixedField_URL Hrun) as [Hu _].
  split; [now split|]. split.
  { rewrite <- (length_fmap Name (backends (globals s'))), Hn. apply length_fmap. }
  cbn [handleAPIStatus snd]. rewrite <- !list_fmap_compose. split.
  - exact Hn.
  - change (StatusHost ∘ statusEntry) with (Host ∘ URL).
    rewrite !(list_fmap_compose URL Host). now rewrite Hu.
Qed.

(** X14.  From startup on, through any interleaving, the strategy is one of
    the two constants round_robin and least_connections: no file content and
    no request body can put anything else there. *)
Theorem strategy_always_recognized cfgs f envs g acts s :
  mainInit cfgs f envs = Continue g tt ->
  runServer acts (mkServer g []) = Some s ->
  validStrategy (globals s).
Proof.
  intros Hinit Hrun.
  destruct (runServer_keeps_fixed Name acts _ s fixedField_Name Hrun) as [_ Hv].
  apply Hv. cbn. unfold mainInit in Hinit.
  destruct cfgs as [cfgs|]; [|discriminate].
  destruct (startAll cfgs envs (loadStrategy f initGlobals)) as [g0 []|] eqn:Hall;
    [|discriminate].
  inversion Hinit; subst g. unfold validStrategy. cbn.
  destruct (startAll_entries _ _ _ _ Hall) as (_ & _ & _ & _ & Hs). rewrite Hs.
  destruct f as [| |[err|x]]; cbn; try now left.
  destruct (String.eqb x StrategyRoundRobin); [now left|].
  destruct (String.eqb x StrategyLeastConnections); [now right | now left].
Qed.

(* ------------------------------------------------------------------ *)
(** ** The strategy handler and the strategy file *)
(* ------------------------------------------------------------------ *)

Lemma loadStrategy_recognized s g :
  s = StrategyRoundRobin \/ s = StrategyLeastConnections ->
  strategy (loadStrategy (FileContents (Decoded s)) g) = s.
Proof. intros [-> | ->]; reflexivity. Qed.

(** X15.  What the strategy handler writes to the strategy file is the
    strategy it has just put in memory, and it is a value that loading
    accepts: loaded at the next startup, into any state, it gives back that
    strategy. *)
Theorem saved_strategy_loads_back createFails r g s :
  EWriteStrategyFile s ∈ effects (fst (handleProxyStrategy createFails r g)) ->
  EWriteStrategyFile s ∈ effects g \/
  (strategy (fst (handleProxyStrategy createFails r g)) = s /\
   forall g0, strategy (loadStrategy (FileContents (Decoded s)) g0) = s).
Proof.
  unfold handleProxyStrategy. destruct r as [|[err|x]]; try (now left).
  assert (Hcase : forall c,
    c = StrategyRoundRobin \/ c = StrategyLeastConnections ->
    EWriteStrategyFile s ∈
      effects (logf (LogStrategyChanged (strategy (saveStrategy createFails c
                                                     (withStrategy c g))))
                    (saveStrategy createFails c (withStrategy c g))) ->
    EWriteStrategyFile s ∈ effects g \/
    (strategy (logf (LogStrategyChanged (strategy (saveStrategy createFails c
                                                     (withStrategy c g))))
                    (saveStrategy createFails c (withStrategy c g))) = s /\
     forall g0, strategy (loadStrategy (FileContents (Decoded s)) g0) = s)).
  { intros c Hc. unfold saveStrategy. destruct createFails; cbn; intros Hin.
    - apply elem_of_app in Hin. destruct Hin as [Hin|Hin];
        [|apply list_elem_of_singleton in Hin; discriminate].
      apply elem_of_app in Hin. destruct Hin as [Hin|Hin]; [now left|].
      apply list_elem_of_singleton in Hin. discriminate.
    - apply elem_of_app in Hin. destruct Hin as [Hin|Hin];
        [|apply list_elem_of_singleton in Hin; discriminate].
      apply elem_of_app in Hin. destruct Hin as [Hin|Hin]; [now left|].
      apply list_elem_of_singleton in Hin. inversion Hin; subst s. right.
      split; [reflexivity|]. intros g0. now apply loadStrategy_recognized. }
  destruct (String.eqb x StrategyRoundRobin); [apply Hcase; now left|].
  destruct (String.eqb x StrategyLeastConnections); [apply Hcase; now right|].
  now left.
Qed.


(* ------------------------------------------------------------------ *)
(** ** Starting and restarting *)
(* ------------------------------------------------------------------ *)

Lemma findByName_none name k bs :
  findByName name k bs = None <-> (forall b, b ∈ bs -> Name b <> name).
Proof.
  revert k. induction bs as [|a bs IH]; intros k; cbn [findByName].
  - split; [|done]. intros _ b H. inversion H.
  - destruct (String.eqb (Name a) name) eqn:E.
    + apply String.eqb_eq in E. split; [discriminate|].
      intros H. now destruct (H a ltac:(apply elem_of_cons; now left)).
    + apply String.eqb_neq in E. rewrite IH. split.
      * intros H b Hin. apply elem_of_cons in Hin.
        destruct Hin as [-> | Hin]; [exact E | now apply H].
      * intros H b Hin. apply H. apply elem_of_cons. now right.
Qed.

(** X17.  Start answers not-found, and changes nothing, exactly when no
    backend bears the given name; a missing name is answered 400; for a
    known name the answer is never an error, even when the spawn fails. *)
Theorem start_not_found_iff name env g :
  (name = EmptyString ->
   handleStartOrRestartBackend name env g =
     Continue g (HttpError "Parameter 'name' missing" StatusBadRequest)) /\
  (name <> EmptyString ->
   ((forall b, b ∈ backends g -> Name b <> name) <->
    handleStartOrRestartBackend name env g =
      Continue g (HttpError ("Backend '" +:+ name +:+ "' nicht gefunden")
                            StatusNotFound)) /\
   ((exists b, b ∈ backends g /\ Name b = name) ->
    match handleStartOrRestartBackend name env g with
    | Continue _ r => statusOf r = StatusOK
    | Exit _ code => code = 1
    end)).
Proof.
  split.
  { intros ->. reflexivity. }
  intros Hname. apply String.eqb_neq in Hname.
  unfold handleStartOrRestartBackend. rewrite Hname.
  rewrite <- (findByName_none name 0 (backends g)).
  destruct (findByName name 0 (backends g)) as [[i b]|] eqn:Hfind.
  - split.
    + split; [discriminate|].
      destruct (startBackend env i b _) as [g2 u|g2 c]; [|discriminate].
      intros H. inversion H.
    + intros _. unfold startBackend.
      destruct (binaryMissing env); [destruct (buildFails env)|]; reflexivity.
  - split; [now split|].
    intros (b & Hin & Hb). exfalso.
    now apply (proj1 (findByName_none name 0 (backends g)) Hfind b Hin).
Qed.

(** X18.  A restart kills the old process before it spawns the new one:
    for the first backend of the given name, with a process attached and the
    build step passing, the handler logs the restart, kills the attached
    process, runs the build step if the artifact is missing, spawns once and
    logs the outcome, in this order and nothing else. *)
Theorem restart_kills_before_spawn name env g i b p :
  name <> EmptyString ->
  findByName name 0 (backends g) = Some (i, b) ->
  attachedProcess b = Some p ->
  buildPasses env = true ->
  effects (stateOf (handleStartOrRestartBackend name env g)) =
    effects g ++ [ELog (LogRestarting (Name b)); EKill p] ++ buildEffects env ++
    [ESpawn (Port (URL b));
     ELog (match spawn env with
           | Some _ => LogAutoStarted (Name b) (Port (URL b))
           | None => LogCouldntStart (Name b) (Port (URL b))
           end)].
Proof.
  intros Hname Hfind Hp Hpass. apply String.eqb_neq in Hname.
  unfold handleStartOrRestartBackend. rewrite Hname, Hfind, Hp.
  unfold buildPasses, buildEffects in *. unfold startBackend, spawnBackend.
  destruct (binaryMissing env); [destruct (buildFails env); [discriminate|]|];
    destruct (spawn env); cbn; now rewrite <- !app_assoc.
Qed.

(** X19.  Starting or restarting a backend changes process handles only:
    the status list (names, hosts, health flags, last-seen times, counters),
    the cursor and the gate are what they were, on every path including the
    fatal one.  A backend that was stopped stays out of the healthy set until
    a probe succeeds, and one that was healthy stays in it while its process
    is replaced. *)
Theorem start_keeps_status name env g :
  let g' := stateOf (handleStartOrRestartBackend name env g) in
  snd (handleAPIStatus g') = snd (handleAPIStatus g) /\
  healthyIdx g' = healthyIdx g /\
  counter g' = counter g /\
  proxyActive g' = proxyActive g.
Proof.
  cbv zeta.
  destruct (handleStart_keeps_proj statusEntry name env g ltac:(done)) as [H1 _].
  pose proof (handleStart_sameLoad name env g) as H2.
  assert (H3 : counter (stateOf (handleStartOrRestartBackend name env g)) = counter g /\
               proxyActive (stateOf (handleStartOrRestartBackend name env g))
               = proxyActive g).
  { destruct (handleStartOrRestartBackend name env g); destruct H2 as [[Hc _] Hp];
      now split. }
  split; [exact H1|]. split; [|exact H3].
  unfold healthyIdx, healthySet. apply healthyFrom_idx_ext.
  cbn [handleAPIStatus snd] in H1.
  apply (f_equal (fmap StatusHealthy)) in H1.
  now rewrite <- !list_fmap_compose in H1.
Qed.

(* ------------------------------------------------------------------ *)
(** ** Least connections and the requests in flight *)
(* ------------------------------------------------------------------ *)

(** X20.  In a state whose counters count the requests in flight (as they
    do from startup on), with fewer than 2^63 of them, LeastConnections
    returns a healthy backend that no healthy backend undercuts in requests
    currently holding it; among those that tie with it, it is the first in
    configuration order. *)
Theorem leastConnections_fewest_in_flight s g1 i :
  countersMatch s ->
  Z.of_nat (length (inflight s)) <= Int.MaxInt64 ->
  strategy (globals s) = StrategyLeastConnections ->
  getNextHealthyBackend (globals s) = (g1, SelBackend i) ->
  forall j b', backends (globals s) !! j = Some b' -> Healthy b' = true ->
    (held i (inflight s) <= held j (inflight s))%nat /\
    (held j (inflight s) = held i (inflight s) -> (i <= j)%nat).
Proof.
  intros Hinv Hlen Hs Hsel.
  assert (Hcount : forall k b, backends (globals s) !! k = Some b ->
            ActiveRequests b = Z.of_nat (held k (inflight s))).
  { intros k b Hb. pose proof (held_le_length k (inflight s)) as Hle.
    rewrite (Hinv k b Hb). apply wrap_int64_id. int_range. }
  assert (Hpos : Forall (fun p => 0 <= ActiveRequests (snd p)) (healthySet (globals s))).
  { apply Forall_forall. intros [k b] Hin. apply healthySet_elem in Hin.
    destruct Hin as [Hb _]. cbn. rewrite (Hcount k b Hb). lia. }
  pose proof (leastConnScan_spec _ Hpos) as Hscan.
  unfold getNextHealthyBackend in Hsel.
  destruct (healthySet (globals s)) as [|q l] eqn:Eh; [discriminate|].
  destruct Hscan as (l1 & [i0 b0] & l2 & Heq & Hscan & H1 & H2).
  cbn [length Nat.eqb] in Hsel. rewrite Hs, String.eqb_refl, Hscan in Hsel.
  cbn [fst] in Hsel. inversion Hsel; subst i0. clear Hsel.
  assert (Hin : (i, b0) ∈ healthySet (globals s)).
  { rewrite Eh, Heq. apply elem_of_app. right. apply elem_of_cons. now left. }
  apply healthySet_elem in Hin. destruct Hin as [Hb0 _].
  pose proof (Hcount i b0 Hb0) as Hi.
  intros j b' Hb' Hh'. pose proof (Hcount j b' Hb') as Hj.
  assert (Hin' : (j, b') ∈ l1 ++ (i, b0) :: l2).
  { rewrite <- Heq, <- Eh. now apply healthySet_elem. }
  unfold healthySet in Eh. rewrite Heq in Eh.
  destruct (healthyFrom_split _ _ _ _ _ Eh) as [Hbefore Hafter].
  apply elem_of_app in Hin'. destruct Hin' as [Hin' | Hin'].
  - rewrite Forall_forall in H1. specialize (H1 _ Hin'). cbn in H1. split; lia.
  - apply elem_of_cons in Hin'. destruct Hin' as [Hin' | Hin'].
    + inversion Hin'; subst. split; lia.
    + rewrite Forall_forall in H2, Hafter.
      specialize (H2 _ Hin'). specialize (Hafter _ Hin'). cbn in *. split; lia.
Qed.

(* ------------------------------------------------------------------ *)
(** ** Only healthy backends are selected *)
(* ------------------------------------------------------------------ *)

(** X22.  Whatever the state and the strategy, a backend returned by the
    selection is marked healthy, and the selection returns nil exactly when
    no backend is healthy; the handler, with the gate open, then answers
    service-unavailable and leaves the whole state as it was.  When some
    backend is healthy, the selection does return a backend under
    LeastConnections, and under RoundRobin while the cursor is below
    [MaxInt64]. *)
Theorem selection_only_healthy g :
  (forall g1 i, getNextHealthyBackend g = (g1, SelBackend i) ->
     exists b, backends g !! i = Some b /\ Healthy b = true) /\
  (snd (getNextHealthyBackend g) = SelNil <-> noneHealthy g) /\
  (~ noneHealthy g ->
   strategy g = StrategyLeastConnections \/
   (strategy g = StrategyRoundRobin /\ 0 <= counter g < Int.MaxInt64) ->
   exists i b,
     snd (getNextHealthyBackend g) = SelBackend i /\
     backends g !! i = Some b /\ Healthy b = true) /\
  (noneHealthy g -> proxyActive g = true ->
   forall reqID RoundTrip,
     handleRequest reqID RoundTrip g =
     (g, Responded (HttpError "No healthy backend available" StatusServiceUnavailable))).
Proof.
  assert (Hhealthy : forall g1 i, getNextHealthyBackend g = (g1, SelBackend i) ->
            exists b, backends g !! i = Some b /\ Healthy b = true).
  { intros g1 i H. destruct (select_backend_inv _ _ _ H) as (b & _ & Hb & Hh & _).
    now exists b. }
  split; [exact Hhealthy|]. split; [|split].
  - rewrite select_nil_iff. apply healthyFrom_empty.
  - intros Hsome Hstrat.
    assert (Hne : healthySet g <> []).
    { intros E. apply Hsome. now apply (healthyFrom_empty 0 (backends g)). }
    assert (Hsel : exists i, snd (getNextHealthyBackend g) = SelBackend i).
    { destruct Hstrat as [Hs | [Hs Hc]].
      - pose proof (leastConnScan_in (healthySet g)) as Hin.
        unfold getNextHealthyBackend.
        replace (length (healthySet g) =? 0)%nat with false
          by (symmetry; apply Nat.eqb_neq; now destruct (healthySet g)).
        rewrite Hs, String.eqb_refl.
        destruct (fst (leastConnScan (healthySet g))) as [[i b]|]; [|contradiction].
        now exists i.
      - assert (Hne' : healthyIdx g <> []).
        { unfold healthyIdx. now destruct (healthySet g). }
        assert (HK : 0 < Z.of_nat (length (healthyIdx g)))
          by (destruct (healthyIdx g); [done | simpl; lia]).
        destruct (roundRobin_step g Hs Hne') as (g1 & Hsel & _).
        destruct (roundRobin_index_small (counter g) _ Hc HK) as [Hi Hr].
        cbv zeta in Hsel. rewrite Hi in Hsel.
        replace (_ <? 0) with false in Hsel by (symmetry; apply Z.ltb_ge; lia).
        assert (Hlt : (Z.to_nat ((counter g + 1) mod Z.of_nat (length (healthyIdx g)))
                       < length (healthyIdx g))%nat) by lia.
        apply lookup_lt_is_Some_2 in Hlt. destruct Hlt as [i0 Hi0].
        rewrite Hi0 in Hsel. exists i0. now rewrite Hsel. }
    destruct Hsel as [i Hsel].
    destruct (getNextHealthyBackend g) as [g1 sel] eqn:E. cbn in Hsel. subst sel.
    destruct (Hhealthy g1 i eq_refl) as (b & Hb & Hh). now exists i, b.
  - intros Hnone Hgate reqID rt. apply healthyFrom_empty with (k := 0%nat) in Hnone.
    unfold handleRequest. rewrite Hgate. cbn [negb].
    now rewrite (select_nil_state g Hnone).
Qed.

(* ================================================================== *)
(** * The statements at concrete states *)
(* ================================================================== *)

(** C1 at the two-backend sample with the upstream down: the request is
    answered 502 and the registry is back to what it was. *)
Lemma handleRequest_releases_once_witness :
  proxyActive Sample.roundRobin = true /\
  backends (fst (handleRequest 7 Sample.upstreamDown Sample.roundRobin))
    = backends Sample.roundRobin /\
  snd (handleRequest 7 Sample.upstreamDown Sample.roundRobin)
    = Responded (HttpError "connection refused" StatusBadGateway).
Proof.
  assert (Hgate : proxyActive Sample.roundRobin = true) by reflexivity.
  assert (Hsel : getNextHealthyBackend Sample.roundRobin =
                 (fst (getNextHealthyBackend Sample.roundRobin), SelBackend 1))
    by (vm_compute; reflexivity).
  assert (Hrange : Int.is_int64 (activeAt Sample.roundRobin 1))
    by (vm_compute; split; discriminate).
  pose proof (handleRequest_releases_once 7 Sample.upstreamDown Sample.roundRobin
                _ 1%nat Hgate Hsel Hrange) as H.
  cbv zeta in H. destruct H as (_ & Hbs & _ & _ & _ & Hout).
  split; [exact Hgate|]. split; [exact Hbs | exact Hout].
Defined.

(** C2 at the paused sample: two forward attempts around a failing probe. *)
Lemma paused_gate_refuses_all_witness :
  proxyActive Sample.paused = false /\
  counter (snd (run [EvRequest 1 Sample.upstreamOk; EvProbe 0 DialErr;
                     EvRequest 2 Sample.upstreamOk] Sample.paused)) = 0.
Proof.
  split; [reflexivity|].
  apply (paused_gate_refuses_all
           [EvRequest 1 Sample.upstreamOk; EvProbe 0 DialErr;
            EvRequest 2 Sample.upstreamOk] Sample.paused);
    reflexivity.
Defined.

(** C3 at the sample where A holds one request and B none: B is chosen. *)
Lemma leastConnections_picks_first_minimum_witness :
  strategy Sample.leastConn = StrategyLeastConnections /\
  healthySet Sample.leastConn <> [] /\
  exists i b g1,
    getNextHealthyBackend Sample.leastConn = (g1, SelBackend i) /\
    backends Sample.leastConn !! i = Some b /\ Healthy b = true /\
    (forall j b', backends Sample.leastConn !! j = Some b' -> Healthy b' = true ->
        ActiveRequests b <= ActiveRequests b' /\
        (ActiveRequests b' = ActiveRequests b -> (i <= j)%nat)) /\
    backends g1 = alter (addActive 1) i (backends Sample.leastConn) /\
    activeAt g1 i = ActiveRequests b + 1 /\
    counter g1 = counter Sample.leastConn /\
    effects g1 =
      effects Sample.leastConn ++
      [ELog (LogSelectedLeastConn (Name b) (ActiveRequests b + 1))].
Proof.
  split; [reflexivity|]. split; [discriminate|].
  apply (leastConnections_picks_first_minimum Sample.leastConn).
  - reflexivity.
  - discriminate.
  - intros [|[|i]] b Hb _; simpl in Hb; inversion Hb; subst b;
      (split; [vm_compute; discriminate | vm_compute; reflexivity]).
Defined.

(** X21 at the scenario of the specification: two healthy backends, ten
    requests, five each. *)
Lemma roundRobin_fair_witness :
  forallb isBackend (fst (selections 10 Sample.roundRobin)) = true /\
  (5 <= timesSelected 0 (fst (selections 10 Sample.roundRobin)) <= 5)%nat.
Proof.
  assert (Hall : forallb isBackend (fst (selections 10 Sample.roundRobin)) = true)
    by (vm_compute; reflexivity).
  split; [exact Hall|].
  apply (roundRobin_fair Sample.roundRobin 10 0 Sample.A).
  - reflexivity.
  - split; vm_compute; discriminate.
  - exact Hall.
  - reflexivity.
  - reflexivity.
Defined.

(** With a healthy set whose size is a power of two the step onto the sign
    bit still returns a backend, and the turn order is kept: B, then A. *)
Example roundRobin_onto_sign_bit :
  fst (selections 2 Sample.nearSignBit) = [SelBackend 1; SelBackend 0] /\
  fst (selections 3 Sample.nearSignBit) = [SelBackend 1; SelBackend 0; SelPanic].
Proof. vm_compute. split; reflexivity. Qed.

(** X22 at the two-backend sample, where a healthy backend is returned, and
    at the sample with every backend down. *)
Lemma selection_only_healthy_witness :
  (exists i b,
     snd (getNextHealthyBackend Sample.roundRobin) = SelBackend i /\
     backends Sample.roundRobin !! i = Some b /\ Healthy b = true) /\
  handleRequest 7 Sample.upstreamOk Sample.allDown =
  (Sample.allDown,
   Responded (HttpError "No healthy backend available" StatusServiceUnavailable)).
Proof.
  split.
  - apply (selection_only_healthy Sample.roundRobin).
    + intros H. inversion H as [|b bs Hb _]. discriminate Hb.
    + right. split; [reflexivity|]. split; [vm_compute; discriminate | vm_compute; reflexivity].
  - apply (selection_only_healthy Sample.allDown).
    + repeat constructor.
    + reflexivity.
Defined.

(** C6.  Stop does not detach the handle: after a successful stop of A the
    process handle is still attached, and a second stop of the stopped
    backend kills again and answers 200, not the 404 that the handler's own
    message keeps for a backend already stopped. *)
Lemma stop_leaves_handle_attached :
  let g1 := fst (handleStopBackend "A" Sample.killOk Sample.roundRobin) in
  (Cmd <$> backends g1 !! 0%nat) <> Some None /\
  (Cmd <$> backends g1 !! 0%nat) = Some (Sample.running 1) /\
  statusOf (snd (handleStopBackend "A" Sample.killOk g1)) <> StatusNotFound /\
  effects (fst (handleStopBackend "A" Sample.killOk g1)) =
    [EKill (mkProcess 1); ELog (LogManuallyStopped "A");
     EKill (mkProcess 1); ELog (LogManuallyStopped "A")].
Proof. vm_compute. repeat split; discriminate. Qed.

(** A kill that reports an error: 500, and A stays marked healthy. *)
Example stop_kill_fails :
  statusOf (snd (handleStopBackend "A" Sample.killFails Sample.roundRobin))
    = StatusInternalServerError /\
  backends (fst (handleStopBackend "A" Sample.killFails Sample.roundRobin))
    = backends Sample.roundRobin.
Proof. split; reflexivity. Qed.

(** X23 at the two-backend sample: stopping A clears its flag at once. *)
Lemma handleStopBackend_spec_witness :
  "A" <> EmptyString /\
  backends (fst (handleStopBackend "A" Sample.killOk Sample.roundRobin)) !! 0%nat
    = Some (setHealthy false Sample.A).
Proof.
  assert (Hname : "A" <> EmptyString) by discriminate.
  split; [exact Hname|].
  destruct (handleStopBackend_spec "A" Sample.killOk Sample.roundRobin Hname)
    as [H _].
  specialize (H 0%nat Sample.A (mkProcess 1) eq_refl eq_refl eq_refl).
  cbv zeta in H. destruct H as [_ H]; [intros j b' Hj; lia|].
  change (Sample.killOk (mkProcess 1)) with (@None string) in H.
  exact (proj1 (proj2 H)).
Defined.



(** C8 at the two-backend sample: a failed dial of healthy A. *)
Lemma probe_spec_witness :
  backends Sample.roundRobin !! 0%nat = Some Sample.A /\
  effects (probe 0 DialErr Sample.roundRobin) =
    [ELog (LogNotAvailable "A" "localhost:9001")].
Proof.
  assert (Hb : backends Sample.roundRobin !! 0%nat = Some Sample.A) by reflexivity.
  split; [exact Hb|].
  pose proof (probe_spec 0 DialErr Sample.roundRobin Sample.A Hb) as H.
  cbv zeta in H. destruct H as (_ & _ & _ & _ & _ & _ & He & _).
  exact He.
Defined.

(** C10 at startup with a file that names no known strategy. *)
Lemma loadStrategy_spec_witness :
  strategy (loadStrategy (FileContents (Decoded "random")) initGlobals)
    = StrategyRoundRobin.
Proof.
  apply (loadStrategy_spec (FileContents (Decoded "random")) initGlobals).
  discriminate.
Defined.

(* ------------------------------------------------------------------ *)
(** ** The further properties at concrete states *)
(* ------------------------------------------------------------------ *)

(** X2 at the sample where A holds one request and B none. *)
Lemma leastConnections_always_returns_witness :
  strategy Sample.leastConn = StrategyLeastConnections /\
  healthySet Sample.leastConn <> [] /\
  exists i b g1,
    getNextHealthyBackend Sample.leastConn = (g1, SelBackend i) /\
    backends Sample.leastConn !! i = Some b /\ Healthy b = true /\
    counter g1 = counter Sample.leastConn /\
    backends g1 = alter (addActive 1) i (backends Sample.leastConn).
Proof.
  split; [reflexivity|]. split; [discriminate|].
  apply (leastConnections_always_returns Sample.leastConn);
    [reflexivity | discriminate].
Defined.

(** X3 at the two-backend sample: the third selection falls on B. *)
Lemma roundRobin_turn_order_witness :
  healthyIdx Sample.roundRobin <> [] /\
  exists i,
    fst (selections 3 Sample.roundRobin) !! 2%nat = Some (SelBackend i) /\
    healthyIdx Sample.roundRobin !!
      Z.to_nat ((counter Sample.roundRobin + 1 + Z.of_nat 2)
                mod Z.of_nat (length (healthyIdx Sample.roundRobin)))
    = Some i.
Proof.
  split; [discriminate|].
  apply (roundRobin_turn_order 3 Sample.roundRobin 2).
  - reflexivity.
  - vm_compute. discriminate.
  - vm_compute. discriminate.
  - discriminate.
  - lia.
Defined.

(** X4 at the sample with three backends and the cursor at [MaxInt64]. *)
Lemma roundRobin_panics_past_sign_bit_witness :
  2 ^ 63 <= Int.AddUint64 (counter Sample.cursorAtSignBit) 1 /\
  getNextHealthyBackend Sample.cursorAtSignBit =
    (withCounter (Int.AddUint64 (counter Sample.cursorAtSignBit) 1)
                 Sample.cursorAtSignBit, SelPanic).
Proof.
  assert (Hz : Int.int_of_uint64 (Int.AddUint64 (counter Sample.cursorAtSignBit) 1)
               = - 2 ^ 63) by (vm_compute; reflexivity).
  assert (Hc : 2 ^ 63 <= Int.AddUint64 (counter Sample.cursorAtSignBit) 1)
    by (vm_compute; discriminate).
  split; [exact Hc|].
  apply (roundRobin_panics_past_sign_bit 7 Sample.upstreamOk Sample.cursorAtSignBit).
  - reflexivity.
  - discriminate.
  - exact Hc.
  - rewrite Hz. change (Z.of_nat (length (healthyIdx Sample.cursorAtSignBit))) with 3.
    intros [k Hk]. lia.
Defined.

(** X5 after a startup with one backend, a successful probe and a request
    that has selected it: the counter is one. *)
Lemma counters_equal_requests_in_flight_witness :
  Sample.bootOne = Continue Sample.booted tt /\
  exists s b,
    runServer Sample.oneSelected (mkServer Sample.booted []) = Some s /\
    backends (globals s) !! 0%nat = Some b /\
    ActiveRequests b = Z.of_nat (held 0 (inflight s)) /\
    held 0 (inflight s) = 1%nat.
Proof.
  assert (Hboot : Sample.bootOne = Continue Sample.booted tt)
    by (vm_compute; reflexivity).
  split; [exact Hboot|].
  destruct (runServer Sample.oneSelected (mkServer Sample.booted [])) as [s|] eqn:Hrun;
    [|vm_compute in Hrun; discriminate].
  destruct (backends (globals s) !! 0%nat) as [b|] eqn:Hb.
  - exists s, b. split; [reflexivity|]. split; [exact Hb|]. split.
    + apply (counters_equal_requests_in_flight _ _ _ _ _ _ Hboot Hrun).
      * vm_compute in Hrun. inversion Hrun; subst s. vm_compute. discriminate.
      * exact Hb.
    + vm_compute in Hrun. inversion Hrun; subst s. reflexivity.
  - vm_compute in Hrun. inversion Hrun; subst s. discriminate.
Defined.

(** X6 at the two-backend sample: the request admitted before the pause is
    answered by the upstream. *)
Lemma pause_spares_admitted_request_witness :
  proxyActive Sample.roundRobin = true /\
  snd (runPhases 7 Sample.upstreamOk (fst (handleProxyPause Sample.roundRobin)))
    = snd (handleRequest 7 Sample.upstreamOk Sample.roundRobin).
Proof.
  split; [reflexivity|].
  apply (pause_spares_admitted_request 7 Sample.upstreamOk Sample.roundRobin).
  reflexivity.
Defined.

(** X7 at the two-backend sample. *)
Lemma pause_resume_keeps_turn_witness :
  proxyActive Sample.roundRobin = true /\
  snd (handleRequest 7 Sample.upstreamOk
         (fst (handleProxyResume (fst (handleProxyPause Sample.roundRobin)))))
    = snd (handleRequest 7 Sample.upstreamOk Sample.roundRobin).
Proof.
  split; [reflexivity|].
  apply (pause_resume_keeps_turn 7 Sample.upstreamOk Sample.roundRobin).
  reflexivity.
Defined.


(** X13 at the two-backend sample, with A stopped while a request is on its
    way. *)
Lemma registry_never_changes_witness :
  exists s',
    runServer Sample.stopMidway (mkServer Sample.roundRobin []) = Some s' /\
    sameRegistry Sample.roundRobin (globals s').
Proof.
  destruct (runServer Sample.stopMidway (mkServer Sample.roundRobin [])) as [s'|] eqn:Hrun;
    [|vm_compute in Hrun; discriminate].
  exists s'. split; [reflexivity|].
  apply (registry_never_changes Sample.stopMidway (mkServer Sample.roundRobin []) s' Hrun).
Defined.

(** X14 after the startup with the one backend A. *)
Lemma strategy_always_recognized_witness :
  Sample.bootOne = Continue Sample.booted tt /\
  exists s,
    runServer Sample.oneSelected (mkServer Sample.booted []) = Some s /\
    validStrategy (globals s).
Proof.
  assert (Hboot : Sample.bootOne = Continue Sample.booted tt)
    by (vm_compute; reflexivity).
  split; [exact Hboot|].
  destruct (runServer Sample.oneSelected (mkServer Sample.booted [])) as [s|] eqn:Hrun;
    [|vm_compute in Hrun; discriminate].
  exists s. split; [reflexivity|].
  apply (strategy_always_recognized _ _ _ _ _ _ Hboot Hrun).
Defined.

(** X15 at the two-backend sample: least_connections is posted and saved. *)
Lemma saved_strategy_loads_back_witness :
  EWriteStrategyFile StrategyLeastConnections ∈
    effects (fst (handleProxyStrategy false
                    (StrategyPost (Decoded "least_connections")) Sample.roundRobin)) /\
  strategy (loadStrategy (FileContents (Decoded StrategyLeastConnections)) initGlobals)
    = StrategyLeastConnections.
Proof.
  assert (Hin : EWriteStrategyFile StrategyLeastConnections ∈
    effects (fst (handleProxyStrategy false
                    (StrategyPost (Decoded "least_connections")) Sample.roundRobin)))
    by (cbn; constructor).
  split; [exact Hin|].
  destruct (saved_strategy_loads_back false
              (StrategyPost (Decoded "least_connections")) Sample.roundRobin
              StrategyLeastConnections Hin) as [Hold | [_ Hload]].
  - cbn in Hold. inversion Hold.
  - apply Hload.
Defined.

(** X18 at the two-backend sample: A is restarted and the spawn fails. *)
Lemma restart_kills_before_spawn_witness :
  "A" <> EmptyString /\
  effects (stateOf (handleStartOrRestartBackend "A" (mkStartEnv false false None)
                      Sample.roundRobin)) =
    [ELog (LogRestarting "A"); EKill (mkProcess 1); ESpawn "9001";
     ELog (LogCouldntStart "A" "9001")].
Proof.
  split; [discriminate|].
  apply (restart_kills_before_spawn "A" (mkStartEnv false false None)
           Sample.roundRobin 0 Sample.A (mkProcess 1)).
  - discriminate.
  - reflexivity.
  - reflexivity.
  - reflexivity.
Defined.

Lemma forwardingToA_countersMatch : countersMatch Sample.forwardingToA.
Proof.
  intros [|[|i]] b Hb; cbn in Hb; inversion Hb; subst b; vm_compute; reflexivity.
Qed.

(** X20 at the sample with one request being forwarded to A: B is chosen,
    and it holds no more requests than A. *)
Lemma leastConnections_fewest_in_flight_witness :
  getNextHealthyBackend (globals Sample.forwardingToA) =
    (fst (getNextHealthyBackend (globals Sample.forwardingToA)), SelBackend 1) /\
  (held 1 (inflight Sample.forwardingToA) <= held 0 (inflight Sample.forwardingToA))%nat.
Proof.
  assert (Hsel : getNextHealthyBackend (globals Sample.forwardingToA) =
    (fst (getNextHealthyBackend (globals Sample.forwardingToA)), SelBackend 1))
    by (vm_compute; reflexivity).
  split; [exact Hsel|].
  assert (Hlen : Z.of_nat (length (inflight Sample.forwardingToA)) <= Int.MaxInt64)
    by (vm_compute; discriminate).
  exact (proj1 (leastConnections_fewest_in_flight Sample.forwardingToA
                  (fst (getNextHealthyBackend (globals Sample.forwardingToA))) 1
                  forwardingToA_countersMatch Hlen eq_refl Hsel
                  0%nat (addActive 1 Sample.A) eq_refl eq_refl)).
Defined.

(** A startup cut short: A is spawned, the port of B is invalid, the process
    ends with status 1 and the process of A is still attached, not killed. *)
Example startup_leaves_children :
  let r := mainInit (Some [mkConfig "A" 9001; mkConfig "B" (-1)]) FileNotExist
                    Sample.bootEnv in
  exited r = true /\
  attachedProcess <$> backends (stateOf r) = [Some (mkProcess 1)] /\
  effects (stateOf r) =
    [ESpawn "9001"; ELog (LogAutoStarted "A" "9001"); ELog (LogFatal "invalid port")].
Proof. vm_compute. repeat split. Qed.
